(** * cleantext: the per-record text normalisation pipeline of
    [bin/cleantext.py] (class [CleanText], method [stream]).

    The command is Python 2 code (it imports [string.maketrans] and calls
    [str.decode]).  Text values are byte strings; they are modelled as
    [string], one [ascii] per byte.  The regular expressions of the source
    are compiled without flags, so [\w], [\d] and [\s] are the ASCII classes
    on both [str] and [unicode] operands.  A [unicode] value is represented
    by its UTF-8 bytes: every byte of a non-ASCII code point is a non-word
    character, exactly as the code point itself is, and [lower] is only ever
    applied after all non-word characters have been deleted. *)

From Stdlib Require Import Ascii String NArith.
From stdpp Require Import gmap strings list fin_maps.

(** ** Character classes *)

Module Chars.
Local Open Scope N_scope.

Definition in_range (lo hi : N) (c : ascii) : bool :=
  (lo <=? N_of_ascii c) && (N_of_ascii c <=? hi).

(** [\d] *)
Definition is_digit (c : ascii) : bool := in_range 48 57 c.
Definition is_upper (c : ascii) : bool := in_range 65 90 c.
Definition is_lower (c : ascii) : bool := in_range 97 122 c.

(** [\w]: letters, digits and the underscore. *)
Definition is_word (c : ascii) : bool :=
  is_digit c || is_upper c || is_lower c || (N_of_ascii c =? 95).

(** [\s]: space, tab, newline, vertical tab, form feed, carriage return. *)
Definition is_space (c : ascii) : bool :=
  (N_of_ascii c =? 32) || in_range 9 13 c.

(** [\W] *)
Definition is_nonword (c : ascii) : bool := negb (is_word c).

(** [[\W\d]] *)
Definition is_nonword_or_digit (c : ascii) : bool :=
  is_nonword c || is_digit c.

(** One character of [str.lower()]. *)
Definition to_lower (c : ascii) : ascii :=
  if is_upper c then ascii_of_N (N_of_ascii c + 32) else c.

(** The class [[^\b\s<]] of [f_remove_urls].  The pattern is a plain (not
    raw) Python literal, so [\b] is the backspace character, code 8; inside
    a character class the regex escape [\b] means backspace as well. *)
Definition is_backspace (c : ascii) : bool := N_of_ascii c =? 8.
Definition is_lt (c : ascii) : bool := N_of_ascii c =? 60.
Definition is_url_stop (c : ascii) : bool :=
  is_backspace c || is_space c || is_lt c.

(** The separator of [' '.join] and [split(' ')]. *)
Definition is_blank (c : ascii) : bool := N_of_ascii c =? 32.

End Chars.

(** ** Text operations *)

Module Text.
Import Chars.

(** [re.sub('[cls]', '', s)] for a one-character class [cls]. *)
Fixpoint re_delete (cls : ascii -> bool) (s : string) : string :=
  match s with
  | EmptyString => EmptyString
  | String c r => if cls c then re_delete cls r else String c (re_delete cls r)
  end.

(** [re.search('[cls]', s)] as a truth value. *)
Fixpoint re_search (cls : ascii -> bool) (s : string) : bool :=
  match s with
  | EmptyString => false
  | String c r => cls c || re_search cls r
  end.

(** [s.lower()] *)
Fixpoint lower (s : string) : string :=
  match s with
  | EmptyString => EmptyString
  | String c r => String (to_lower c) (lower r)
  end.

(** [re.sub(r'[\W\d]','',text).lower()] *)
Definition clean (text : string) : string :=
  lower (re_delete is_nonword_or_digit text).

(** [re.search(r'[\W]', text)] *)
Definition has_nonword (text : string) : bool := re_search is_nonword text.

Definition starts_with_sep (sep : ascii -> bool) (s : string) : bool :=
  match s with
  | String c _ => sep c
  | EmptyString => false
  end.

Definition cons_head (c : ascii) (l : list string) : list string :=
  match l with
  | t :: ts => String c t :: ts
  | [] => [String c EmptyString]
  end.

(** [re.split('\W+', s)]: the pieces between the maximal runs of non-word
    characters; a run at either end of the text leaves an empty piece
    there, and the empty text gives one empty piece. *)
Fixpoint re_split_nonword (s : string) : list string :=
  match s with
  | EmptyString => [EmptyString]
  | String c r =>
      if is_nonword c
      then (if starts_with_sep is_nonword r
            then re_split_nonword r
            else EmptyString :: re_split_nonword r)
      else cons_head c (re_split_nonword r)
  end.

(** [s.split()]: the maximal runs of characters that are not white space;
    no empty piece is ever produced. *)
Fixpoint split_whitespace (s : string) : list string :=
  match s with
  | EmptyString => []
  | String c r =>
      if is_space c then split_whitespace r
      else match r with
           | EmptyString => [String c EmptyString]
           | String c' _ =>
               if is_space c'
               then String c EmptyString :: split_whitespace r
               else cons_head c (split_whitespace r)
           end
  end.

(** [' '.join(l)] on a list of strings. *)
Fixpoint join_space (l : list string) : string :=
  match l with
  | [] => EmptyString
  | [t] => t
  | t :: ts => t +:+ String " " (join_space ts)
  end.

(** [s.split(' ')]: split on every single space. *)
Fixpoint split_space (s : string) : list string :=
  match s with
  | EmptyString => [EmptyString]
  | String c r =>
      if is_blank c then EmptyString :: split_space r
      else cons_head c (split_space r)
  end.

(** The string holds no space character. *)
Definition no_blank (s : string) : Prop := re_search is_blank s = false.

(** Iterating over a [str] yields its characters as one-character strings. *)
Fixpoint chars (s : string) : list string :=
  match s with
  | EmptyString => []
  | String c r => String c EmptyString :: chars r
  end.

End Text.

(** ** URL removal: [re.sub('https?://[^\b\s<]+', '', text)] *)

Module Url.
Import Chars.

Fixpoint strip_prefix (p s : list ascii) : option (list ascii) :=
  match p, s with
  | [], _ => Some s
  | a :: p', b :: s' => if Ascii.eqb a b then strip_prefix p' s' else None
  | _ :: _, [] => None
  end.

(** Length of the longest prefix made of characters of the class. *)
Fixpoint span (cls : ascii -> bool) (s : list ascii) : nat :=
  match s with
  | c :: r => if cls c then S (span cls r) else 0
  | [] => 0
  end.

(** [://[^stop]+] at the start of [s]: the length matched, if any. *)
Definition match_tail (stop : ascii -> bool) (s : list ascii) : option nat :=
  match strip_prefix [":"; "/"; "/"]%char s with
  | Some r =>
      match span (fun c => negb (stop c)) r with
      | O => None
      | S n => Some (3 + S n)
      end
  | None => None
  end.

(** The pattern anchored at the start of [s]: the length of the match.
    [s?] is greedy: the alternative with the [s] is tried first, the one
    without it on backtracking. *)
Definition match_at (stop : ascii -> bool) (s : list ascii) : option nat :=
  match strip_prefix ["h"; "t"; "t"; "p"]%char s with
  | Some r =>
      let with_s :=
        match r with
        | c :: r' => if Ascii.eqb c "s" then match_tail stop r' else None
        | [] => None
        end in
      match with_s with
      | Some n => Some (5 + n)
      | None =>
          match match_tail stop r with
          | Some n => Some (4 + n)
          | None => None
          end
      end
  | None => None
  end.

(** [re.sub(pattern, '', s)], scanning left to right.  [skip] counts the
    characters of the current match still to be deleted; outside a match
    the pattern is tried at each position, and a character at which it
    fails is copied to the output. *)
Fixpoint sub_go (stop : ascii -> bool) (skip : nat) (s : list ascii)
  : list ascii :=
  match s with
  | [] => []
  | c :: r =>
      match skip with
      | S k => sub_go stop k r
      | O =>
          match match_at stop s with
          | Some (S n) => sub_go stop n r
          | _ => c :: sub_go stop 0 r
          end
      end
  end.

Definition re_sub_url (stop : ascii -> bool) (text : string) : string :=
  string_of_list_ascii (sub_go stop 0 (list_ascii_of_string text)).

(** [CleanText.f_remove_urls] *)
Definition f_remove_urls (text : string) : string :=
  re_sub_url is_url_stop text.

(** The text contains a match of the pattern somewhere. *)
Definition has_url (stop : ascii -> bool) (text : string) : Prop :=
  exists i : nat, match_at stop (drop i (list_ascii_of_string text)) <> None.

(** The two schemes of the pattern, [http://] and [https://]. *)
Definition is_scheme (scheme : list ascii) : Prop :=
  scheme = ["h"; "t"; "t"; "p"; ":"; "/"; "/"]%char
  \/ scheme = ["h"; "t"; "t"; "p"; "s"; ":"; "/"; "/"]%char.

(** A URL starts here: a scheme followed by at least one character that is
    no white space, [<] or backspace. *)
Definition url_starts (s : list ascii) : Prop :=
  exists scheme c rest,
    is_scheme scheme /\ is_url_stop c = false /\ s = scheme ++ c :: rest.

(** URL removal as the specification words it: a URL runs up to the next
    white space or [<]. *)
Definition spec_url_stop (c : ascii) : bool :=
  is_space c || is_lt c.

Definition spec_remove_urls (text : string) : string :=
  re_sub_url spec_url_stop text.

End Url.


Import Chars Text Url.

(** ** Records, values and errors *)

(** An element of a Python list held in a record: a string, a tuple
    [(token, tag)] as the tagger returns it and as line 219 builds it, or the
    two-element list [[token, tag]] that the comprehensions of lines 169-188
    build. *)
Inductive item :=
| IStr (s : string)
| ITuple (a b : string)
| IList (a b : string).

(** A field value: a string, or a list. *)
Inductive value :=
| VStr (s : string)
| VList (l : list item).

(** A record is a Python dict from field names to values. *)
Abbreviation record := (gmap string value).

Inductive error :=
| KeyError
| TypeError
| AttributeError
| IndexError
| UnicodeDecodeError
| LookupError.

Inductive result (A : Type) :=
| Ok (a : A)
| Raise (e : error).
Arguments Ok {A} a.
Arguments Raise {A} e.

(** Exceptions propagate: [x ← m; k] runs [k] only when [m] returned. *)
Global Instance result_bind : MBind result := fun A B k m =>
  match m with
  | Ok a => k a
  | Raise e => Raise e
  end.
Global Instance result_ret : MRet result := fun A a => Ok a.

Definition of_option {A} (e : error) (o : option A) : result A :=
  match o with
  | Some a => Ok a
  | None => Raise e
  end.

(** [try: m except: pass] around an update of the record. *)
Definition try_or {A} (m : result A) (dflt : A) : A :=
  match m with
  | Ok a => a
  | Raise _ => dflt
  end.

(** ** Options of the command (lines 48-99) *)

Record config := Config {
  textfield : string;
  default_clean : bool;
  remove_urls : bool;
  remove_stopwords : bool;
  base_word : bool;
  base_type : string;
  mv : bool;
  force_nltk_tokenize : bool;
  pos_tagset : option string
}.

(** The WordNet part-of-speech constants. *)
Inductive wn_pos := ADJ | VERB | NOUN | ADV.

(** [CleanText.get_wordnet_pos]; the final [else] returns ['n'], which is
    [wordnet.NOUN]. *)
Definition get_wordnet_pos (treebank_tag : string) : wn_pos :=
  match treebank_tag with
  | String "J" _ => ADJ
  | String "V" _ => VERB
  | String "N" _ => NOUN
  | String "R" _ => ADV
  | _ => NOUN
  end.

(** ** Python helpers on records and lists *)

(** [record[k]] *)
Definition getitem (r : record) (k : string) : result value :=
  of_option KeyError (r !! k).

(** A value used where the code needs a string.  On a list the functions
    of [re] and the tokenizer raise [TypeError] (a string is expected), the
    string methods [.decode] and [.split] raise [AttributeError] (a list has
    no such method); [e] is the exception of the use at hand. *)
Definition as_text (e : error) (v : value) : result string :=
  match v with
  | VStr s => Ok s
  | VList _ => Raise e
  end.

(** [for text in v]: a list yields its elements, a string its characters. *)
Definition py_iter (v : value) : list item :=
  match v with
  | VStr s => IStr <$> chars s
  | VList l => l
  end.

(** The elements as strings, for the operations that accept nothing else. *)
Fixpoint all_str (l : list item) : result (list string) :=
  match l with
  | [] => Ok []
  | IStr s :: l' => ts ← all_str l'; Ok (s :: ts)
  | _ :: _ => Raise TypeError
  end.

(** [' '.join(v)] *)
Definition py_join (v : value) : result string :=
  ts ← all_str (py_iter v); Ok (join_space ts).

(** [text[0]] and [text[1]] *)
Definition index0 (text : item) : result string :=
  match text with
  | ITuple a _ | IList a _ => Ok a
  | IStr (String c _) => Ok (String c EmptyString)
  | IStr EmptyString => Raise IndexError
  end.

Definition index1 (text : item) : result string :=
  match text with
  | ITuple _ b | IList _ b => Ok b
  | IStr (String _ (String c _)) => Ok (String c EmptyString)
  | IStr _ => Raise IndexError
  end.

(** A [for] loop whose body may raise. *)
Fixpoint for_each {S X} (body : S -> X -> result S) (st : S) (l : list X)
  : result S :=
  match l with
  | [] => Ok st
  | x :: l' => st' ← body st x; for_each body st' l'
  end.

(** ** The list objects of the lemma-with-POS loop (lines 206-222)

    The loop appends in place to lists that the record and two local
    variables share, so the objects are kept apart from the names bound to
    them: [LField] is the list assigned to [record[self.textfield]] at line
    210, [LTag0] the one assigned to [record['pos_tag']] at line 211,
    [LTuples] is [tuple_list] and [LTags] is [tag_list]. *)

Inductive lobj := LField | LTag0 | LTuples | LTags.

Record lheap := Heap {
  h_field : list item;
  h_tag0 : list item;
  h_tuples : list item;
  h_tags : list item
}.

Definition hget (h : lheap) (o : lobj) : list item :=
  match o with
  | LField => h_field h
  | LTag0 => h_tag0 h
  | LTuples => h_tuples h
  | LTags => h_tags h
  end.

(** [o.append(x)] *)
Definition happend (h : lheap) (o : lobj) (x : item) : lheap :=
  match o with
  | LField => Heap (h_field h ++ [x]) (h_tag0 h) (h_tuples h) (h_tags h)
  | LTag0 => Heap (h_field h) (h_tag0 h ++ [x]) (h_tuples h) (h_tags h)
  | LTuples => Heap (h_field h) (h_tag0 h) (h_tuples h ++ [x]) (h_tags h)
  | LTags => Heap (h_field h) (h_tag0 h) (h_tuples h) (h_tags h ++ [x])
  end.

(** What a field name is bound to during the loop: a value that was there
    before the loop, or one of the loop's list objects. *)
Inductive binding :=
| Val (v : value)
| Obj (o : lobj).

Record lstate := LState {
  ls_rec : gmap string binding;
  ls_heap : lheap
}.

(** The record as seen once the loop is over. *)
Definition deref (h : lheap) (b : binding) : value :=
  match b with
  | Val v => v
  | Obj o => VList (hget h o)
  end.

(** The tuples appended to [tuple_list] for the kept pairs [K]. *)
Definition tuples_of (K : list (string * string)) : list item :=
  (fun p => ITuple p.1 p.2) <$> K.

(** The loop's lists after the pairs [K] have been kept. *)
Definition heap_add (K : list (string * string)) (h : lheap) : lheap :=
  Heap (h_field h ++ (IStr <$> K.*1)) (h_tag0 h)
       (h_tuples h ++ tuples_of K) (h_tags h ++ (IStr <$> K.*2)).

(** The names rebound by lines 221-222 once a pair has been kept. *)
Definition rebind (K : list (string * string)) (m : gmap string binding)
  : gmap string binding :=
  match K with
  | [] => m
  | _ :: _ => <["pos_tuple" := Obj LTuples]> (<["pos_tag" := Obj LTags]> m)
  end.

(** The name is bound to one of the loop's list objects. *)
Definition bound_obj (m : gmap string binding) (k : string) : Prop :=
  exists o, m !! k = Some (Obj o).

(** The record left by the loop when it kept the pairs [K] and the text
    field is named neither [pos_tag] nor [pos_tuple]. *)
Definition pos_result (tf : string) (K : list (string * string)) (r : record)
  : record :=
  let r1 := <["pos_tag" := VList (IStr <$> K.*2)]>
              (<[tf := VList (IStr <$> K.*1)]> r) in
  match K with
  | [] => r1
  | _ :: _ => <["pos_tuple" := VList (tuples_of K)]> r1
  end.

(** ** The frame of a stage *)

(** [r'] agrees with [r] on every field but the text field, [pos_tag] and
    [pos_tuple]. *)
Definition same_elsewhere {V} (tf : string) (r r' : gmap string V) : Prop :=
  forall k, k <> tf -> k <> "pos_tag" -> k <> "pos_tuple" -> r' !! k = r !! k.

(** No field of [r] is missing from [r']. *)
Definition keeps_fields {V} (r r' : gmap string V) : Prop :=
  forall k, is_Some (r !! k) -> is_Some (r' !! k).

(** The two together. *)
Definition framed {V} (tf : string) (r r' : gmap string V) : Prop :=
  same_elsewhere tf r r' /\ keeps_fields r r'.

(** A stage that only ever rebinds the three fields. *)
Definition framing (tf : string) (stage : record -> result record) : Prop :=
  forall r r', stage r = Ok r' -> framed tf r r'.

(** ** The pipeline: [CleanText.stream], one record at a time *)

Section Pipeline.

(** The linguistic capabilities the command calls out to (NLTK). *)
Variable decode_utf8 : string -> option string.
Variable word_tokenize : string -> list string.
Variable pos_tag : list string -> option string -> result (list (string * string)).
Variable lemmatize : string -> wn_pos -> string.
Variable stem : string -> string.
Variable stopwords : gset string.

Definition is_stopword (t : string) : bool := bool_decide (t ∈ stopwords).

Definition base_is (cfg : config) (name : string) : bool :=
  bool_decide (base_type cfg = name).

(** [self.base_word and self.base_type == 'lemma_pos'] *)
Definition is_lemma_pos (cfg : config) : bool :=
  base_word cfg && base_is cfg "lemma_pos".

(** Lines 153-156. *)
Definition stage_urls (cfg : config) (r : record) : result record :=
  if remove_urls cfg then
    v ← getitem r (textfield cfg);
    text ← as_text TypeError v;
    Ok (<[textfield cfg := VStr (f_remove_urls text)]> r)
  else Ok r.

(** The comprehension of lines 169-178. *)
Definition inline_clean_stop (pairs : list (string * string)) : list item :=
  (fun text => IList (clean text.1) text.2) <$>
    filter (fun text => negb (is_stopword (clean text.1))
                        && negb (has_nonword text.1) = true) pairs.

(** The comprehension of lines 180-188. *)
Definition inline_clean (pairs : list (string * string)) : list item :=
  (fun text => IList (clean text.1) text.2) <$>
    filter (fun text => negb (has_nonword text.1) = true) pairs.

(** Lines 167-188: what is stored under ['pos_tuple'] after tagging. *)
Definition inline_filter (cfg : config) (pairs : list (string * string))
  : list item :=
  if default_clean cfg && remove_stopwords cfg then inline_clean_stop pairs
  else if default_clean cfg && negb (remove_stopwords cfg) then inline_clean pairs
  else (fun text => ITuple text.1 text.2) <$> pairs.

(** Lines 158-197. *)
Definition stage_tokenize (cfg : config) (r : record) : result record :=
  if is_lemma_pos cfg || force_nltk_tokenize cfg then
    if is_lemma_pos cfg then
      v ← getitem r (textfield cfg);
      text ← as_text AttributeError v;
      u ← of_option UnicodeDecodeError (decode_utf8 text);
      pairs ← pos_tag (word_tokenize u) (pos_tagset cfg);
      Ok (<["pos_tuple" := VList (inline_filter cfg pairs)]> r)
    else if force_nltk_tokenize cfg then
      v ← getitem r (textfield cfg);
      text ← as_text TypeError v;
      Ok (<[textfield cfg := VList (IStr <$> word_tokenize text)]> r)
    else Ok r
  else if default_clean cfg || (base_word cfg && base_is cfg "lemma") then
    v ← getitem r (textfield cfg);
    text ← as_text TypeError v;
    Ok (<[textfield cfg := VList (IStr <$> re_split_nonword text)]> r)
  else
    v ← getitem r (textfield cfg);
    text ← as_text AttributeError v;
    Ok (<[textfield cfg := VList (IStr <$> split_whitespace text)]> r).

(** A comprehension [[f(text) for text in record[field] if keep(text)]]
    whose [f] and [keep] take strings. *)
Definition comprehend (cfg : config) (keep : string -> bool)
    (f : string -> string) (r : record) : result record :=
  v ← getitem r (textfield cfg);
  ts ← all_str (py_iter v);
  Ok (<[textfield cfg := VList (IStr <$> (f <$> filter (fun t => keep t = true) ts))]> r).

(** Lines 199-204. *)
Definition stage_clean (cfg : config) (r : record) : result record :=
  if default_clean cfg && negb (base_is cfg "lemma_pos") then
    comprehend cfg (fun _ => true) clean r
  else Ok r.

(** [record[self.textfield].append(x)] inside the loop. *)
Definition append_field (cfg : config) (st : lstate) (x : item)
  : result lstate :=
  match ls_rec st !! textfield cfg with
  | None => Raise KeyError
  | Some (Obj o) => Ok (LState (ls_rec st) (happend (ls_heap st) o x))
  | Some (Val (VList l)) =>
      Ok (LState (<[textfield cfg := Val (VList (l ++ [x]))]> (ls_rec st))
                 (ls_heap st))
  | Some (Val (VStr _)) => Raise AttributeError
  end.

(** The body of the loop, lines 213-222. *)
Definition lemma_pos_step (cfg : config) (st : lstate) (text : item)
  : result lstate :=
  t0 ← index0 text;
  t1 ← index1 text;
  let keep_text := lemmatize t0 (get_wordnet_pos t1) in
  if bool_decide (keep_text = EmptyString) then Ok st
  else
    st1 ← append_field cfg st (IStr keep_text);
    let h := happend (happend (ls_heap st1) LTuples (ITuple keep_text t1))
                     LTags (IStr t1) in
    Ok (LState (<["pos_tuple" := Obj LTuples]>
                  (<["pos_tag" := Obj LTags]> (ls_rec st1))) h).

(** The state at line 212, after the four lists have been created. *)
Definition loop_init (cfg : config) (r : record) : lstate :=
  LState (<["pos_tag" := Obj LTag0]>
            (<[textfield cfg := Obj LField]> (Val <$> r)))
         (Heap [] [] [] []).

(** The list the [for] of line 212 runs over.  When it is one of the
    loop's own objects it is the empty [LField] (the text field is named
    [pos_tuple]), so the body never runs and never appends to it. *)
Definition loop_items (st : lstate) : result (list item) :=
  match ls_rec st !! "pos_tuple" with
  | None => Raise KeyError
  | Some (Val v) => Ok (py_iter v)
  | Some (Obj o) => Ok (hget (ls_heap st) o)
  end.

(** Lines 206-222. *)
Definition stage_lemma_pos (cfg : config) (r : record) : result record :=
  if is_lemma_pos cfg then
    let st0 := loop_init cfg r in
    its ← loop_items st0;
    st ← for_each (lemma_pos_step cfg) st0 its;
    Ok (deref (ls_heap st) <$> ls_rec st)
  else Ok r.

(** Lines 224-241. *)
Definition stage_base_stop (cfg : config) (r : record) : result record :=
  if remove_stopwords cfg && base_word cfg && negb (base_is cfg "lemma_pos") then
    r1 ← (if base_is cfg "lemma"
          then comprehend cfg (fun t => negb (is_stopword t))
                              (fun t => lemmatize t NOUN) r
          else Ok r);
    if base_is cfg "stem"
    then comprehend cfg (fun t => negb (is_stopword t)) stem r1
    else Ok r1
  else Ok r.

(** Lines 243-257. *)
Definition stage_base (cfg : config) (r : record) : result record :=
  if negb (remove_stopwords cfg) && base_word cfg then
    r1 ← (if base_is cfg "lemma"
          then comprehend cfg (fun _ => true) (fun t => lemmatize t NOUN) r
          else Ok r);
    if base_is cfg "stem"
    then comprehend cfg (fun _ => true) stem r1
    else Ok r1
  else Ok r.

(** [[text for text in l if text not in stopwords]]: a tuple is hashable
    and no member of the set, a list is not hashable. *)
Fixpoint drop_stopwords (l : list item) : result (list item) :=
  match l with
  | [] => Ok []
  | IStr s :: l' =>
      ts ← drop_stopwords l';
      Ok (if is_stopword s then ts else IStr s :: ts)
  | ITuple a b :: l' => ts ← drop_stopwords l'; Ok (ITuple a b :: ts)
  | IList _ _ :: _ => Raise TypeError
  end.

(** Lines 259-266. *)
Definition stage_stopwords (cfg : config) (r : record) : result record :=
  if remove_stopwords cfg && negb (base_word cfg) then
    v ← getitem r (textfield cfg);
    ts ← drop_stopwords (py_iter v);
    Ok (<[textfield cfg := VList ts]> r)
  else Ok r.

(** Lines 268-273. *)
Definition stage_shape (cfg : config) (r : record) : result record :=
  if negb (mv cfg) then
    v ← getitem r (textfield cfg);
    joined ← py_join v;
    let r1 := <[textfield cfg := VStr joined]> r in
    Ok (try_or (tags ← getitem r1 "pos_tag";
                j ← py_join tags;
                Ok (<["pos_tag" := VStr j]> r1)) r1)
  else Ok r.

(** The record after the base-reduction stage of lemma-with-POS mode. *)
Definition through_lemma_pos (cfg : config) (r : record) : result record :=
  r0 ← stage_urls cfg r;
  r1 ← stage_tokenize cfg r0;
  r2 ← stage_clean cfg r1;
  stage_lemma_pos cfg r2.

(** Stages 3 (plain lemma, stem) and 4 together. *)
Definition reduce_stages (cfg : config) (r : record) : result record :=
  r4 ← stage_base_stop cfg r;
  r5 ← stage_base cfg r4;
  stage_stopwords cfg r5.

(** The record as it reaches output shaping. *)
Definition before_shape (cfg : config) (r : record) : result record :=
  r3 ← through_lemma_pos cfg r;
  r4 ← stage_base_stop cfg r3;
  r5 ← stage_base cfg r4;
  stage_stopwords cfg r5.

(** One turn of the [for record in records] loop, up to the [yield]. *)
Definition stream_record (cfg : config) (r : record) : result record :=
  r6 ← before_shape cfg r;
  stage_shape cfg r6.

(** The loop of lines 151-275: the records yielded, and the exception that
    ended the loop if one did. *)
Fixpoint stream_loop (cfg : config) (records : list record)
  : list record * option error :=
  match records with
  | [] => ([], None)
  | r :: rs =>
      match stream_record cfg r with
      | Ok r' => let '(out, e) := stream_loop cfg rs in (r' :: out, e)
      | Raise e => ([], Some e)
      end
  end.

(** Lines 149-150, [self.setup_logging()] and [logger.info(...)]: file and
    environment access of the host, which either returns or raises before
    any record is read.  [None] stands for a logger that was set up. *)
Variable setup_logging : option error.

(** [CleanText.stream], lines 148-275: the generator. *)
Definition stream (cfg : config) (records : list record)
  : list record * option error :=
  match setup_logging with
  | Some e => ([], Some e)
  | None => stream_loop cfg records
  end.

(** *** What the stages compute on the text, outside lemma-with-POS mode

    These restate the stages above on a text and its token sequence; the
    properties below relate them to the stages on records. *)

(** Stage 0 on the text. *)
Definition url_stage (cfg : config) (text : string) : string :=
  if remove_urls cfg then f_remove_urls text else text.

(** Stage 1, branches b and c. *)
Definition flat_tokenize (cfg : config) (text : string) : list string :=
  if force_nltk_tokenize cfg then word_tokenize text
  else if default_clean cfg || (base_word cfg && base_is cfg "lemma")
       then re_split_nonword text
       else split_whitespace text.

(** Stage 2. *)
Definition flat_clean (cfg : config) (ts : list string) : list string :=
  if default_clean cfg && negb (base_is cfg "lemma_pos")
  then clean <$> ts else ts.

Definition not_stopword (ts : list string) : list string :=
  filter (fun t => t ∉ stopwords) ts.

(** Stages 3 (plain lemma and stem) and 4. *)
Definition flat_reduce (cfg : config) (ts : list string) : list string :=
  let kept := if remove_stopwords cfg then not_stopword ts else ts in
  if base_word cfg then
    if base_is cfg "lemma" then (fun t => lemmatize t NOUN) <$> kept
    else if base_is cfg "stem" then stem <$> kept
    else ts
  else kept.

(** The token sequence that reaches output shaping. *)
Definition flat_tokens (cfg : config) (text : string) : list string :=
  flat_reduce cfg (flat_clean cfg (flat_tokenize cfg (url_stage cfg text))).

(** *** The inline filter of lemma-with-POS mode as the specification
    words it: with stopword removal on, a pair is dropped when its cleaned
    token is empty, still holds a non-word character, or is a stopword;
    with it off the stopword test is left out; the pairs kept carry the
    cleaned token.  No other option takes part. *)
Definition spec_inline_filter (cfg : config) (pairs : list (string * string))
  : list item :=
  (fun text => IList (clean text.1) text.2) <$>
    filter (fun text =>
              clean text.1 <> EmptyString
              /\ has_nonword (clean text.1) = false
              /\ (remove_stopwords cfg = true -> clean text.1 ∉ stopwords))
           pairs.

(** The first components of a list of pairs held in a record. *)
Definition tokens_of (l : list item) : list string :=
  (fun it => match it with
             | IStr s => s
             | ITuple a _ | IList a _ => a
             end) <$> l.

(** *** Lemma-with-POS mode on the tagged pairs *)

Definition is_pair (it : item) : Prop :=
  match it with
  | IStr _ => False
  | ITuple _ _ | IList _ _ => True
  end.

Definition as_pair (it : item) : string * string :=
  match it with
  | ITuple a b | IList a b => (a, b)
  | IStr s => (s, EmptyString)
  end.

(** The lemma of a tagged token, with its tag. *)
Definition lemma_of (p : string * string) : string * string :=
  (lemmatize p.1 (get_wordnet_pos p.2), p.2).

(** The (lemma, tag) pairs with a non-empty lemma, in order. *)
Definition kept (its : list item) : list (string * string) :=
  filter (fun p => p.1 <> EmptyString) (lemma_of <$> (as_pair <$> its)).

(** The capabilities whose output reaches output shaping under the options
    [cfg] put no space into a token: the lemmatizer and the stemmer return a
    token without a space for a token without one, and the tokenizer
    returns tokens without a space.  Each is asked for only where its
    output is not cleaned afterwards: with [default_clean] on, the
    tokenizer's tokens reach output shaping uncleaned only when
    [base_type] is [lemma_pos], [base_word] is off and
    [force_nltk_tokenize] is on. *)
Definition space_free (cfg : config) : Prop :=
  (base_word cfg = true ->
   base_type cfg = "lemma" \/ base_type cfg = "lemma_pos" ->
   forall t p, no_blank t -> no_blank (lemmatize t p))
  /\ (base_word cfg = true -> base_type cfg = "stem" ->
      forall t, no_blank t -> no_blank (stem t))
  /\ (base_word cfg = false -> base_type cfg = "lemma_pos" ->
      force_nltk_tokenize cfg = true ->
      forall s, Forall no_blank (word_tokenize s)).

End Pipeline.

(** ** The option front end (lines 48-99)

    The options are declared in the source with the host library's
    [Option]; the parser that reads the [name=value] arguments, applies the
    validators and reports errors is the host's and is not part of the
    source.  The source gives, for each option, its name, its default, whether
    it is required and whether it has a [validate=] validator; the
    definitions below take exactly that from lines 48-99. *)


Section FrontEnd.

(** [validators.Fieldname()] and [validators.Boolean()]. *)
Variable valid_fieldname : string -> bool.
Variable truth_value : string -> option bool.

(** The declared defaults; [textfield] has none and is required. *)
Definition defaults : config :=
  Config EmptyString true true true true "lemma" true false None.

(** Modelled from the spec: the host's option parser is missing from the
    source.  As the specification has it, an option value outside its
    declared type is a configuration error; the declared type of an option is
    its validator at lines 48-99 ([Fieldname] for [textfield], [Boolean] for
    six options, none for [base_type] and [pos_tagset], whose value is kept
    as given).  A name that is not declared is an error as well.  The state
    is the required field name, once given, and the other eight options. *)
Definition assign (name val : string) (st : option string * config)
  : option (option string * config) :=
  let '(tf, c) := st in
  if bool_decide (name = "textfield") then
    if valid_fieldname val then Some (Some val, c) else None
  else if bool_decide (name = "default_clean") then
    b ← truth_value val;
    Some (tf, Config (textfield c) b (remove_urls c) (remove_stopwords c)
                (base_word c) (base_type c) (mv c) (force_nltk_tokenize c)
                (pos_tagset c))
  else if bool_decide (name = "remove_urls") then
    b ← truth_value val;
    Some (tf, Config (textfield c) (default_clean c) b (remove_stopwords c)
                (base_word c) (base_type c) (mv c) (force_nltk_tokenize c)
                (pos_tagset c))
  else if bool_decide (name = "remove_stopwords") then
    b ← truth_value val;
    Some (tf, Config (textfield c) (default_clean c) (remove_urls c) b
                (base_word c) (base_type c) (mv c) (force_nltk_tokenize c)
                (pos_tagset c))
  else if bool_decide (name = "base_word") then
    b ← truth_value val;
    Some (tf, Config (textfield c) (default_clean c) (remove_urls c)
                (remove_stopwords c) b (base_type c) (mv c)
                (force_nltk_tokenize c) (pos_tagset c))
  else if bool_decide (name = "base_type") then
    Some (tf, Config (textfield c) (default_clean c) (remove_urls c)
                (remove_stopwords c) (base_word c) val (mv c)
                (force_nltk_tokenize c) (pos_tagset c))
  else if bool_decide (name = "mv") then
    b ← truth_value val;
    Some (tf, Config (textfield c) (default_clean c) (remove_urls c)
                (remove_stopwords c) (base_word c) (base_type c) b
                (force_nltk_tokenize c) (pos_tagset c))
  else if bool_decide (name = "force_nltk_tokenize") then
    b ← truth_value val;
    Some (tf, Config (textfield c) (default_clean c) (remove_urls c)
                (remove_stopwords c) (base_word c) (base_type c) (mv c) b
                (pos_tagset c))
  else if bool_decide (name = "pos_tagset") then
    Some (tf, Config (textfield c) (default_clean c) (remove_urls c)
                (remove_stopwords c) (base_word c) (base_type c) (mv c)
                (force_nltk_tokenize c) (Some val))
  else None.

(** Modelled from the spec: the arguments are assigned in the order given,
    and the first one in error ends the parse. *)
Fixpoint assign_all (args : list (string * string))
    (st : option string * config) : option (option string * config) :=
  match args with
  | [] => Some st
  | (name, val) :: args' => st' ← assign name val st; assign_all args' st'
  end.

(** Modelled from the spec: the configuration of a run, or [None] for a
    configuration error; a missing required field name ([textfield] is
    declared with [require=True]) is one. *)
Definition parse_options (args : list (string * string)) : option config :=
  st ← assign_all args (None, defaults);
  tf ← st.1;
  Some (Config tf (default_clean st.2) (remove_urls st.2)
          (remove_stopwords st.2) (base_word st.2) (base_type st.2)
          (mv st.2) (force_nltk_tokenize st.2) (pos_tagset st.2)).

End FrontEnd.

(** A run of the command. *)
Inductive outcome :=
| ConfigurationError
| Ran (yielded : list record) (failure : option error).

Section Command.

Variable valid_fieldname : string -> bool.
Variable truth_value : string -> option bool.
Variable decode_utf8 : string -> option string.
Variable word_tokenize : string -> list string.
Variable pos_tag : list string -> option string -> result (list (string * string)).
Variable lemmatize : string -> wn_pos -> string.
Variable stem : string -> string.
Variable stopwords : gset string.
Variable setup_logging : option error.

(** Modelled from the spec: [dispatch(CleanText, ...)] of the host parses
    the options and, unless that is a configuration error, calls [stream]:
    a configuration error is surfaced before any record is processed. *)
Definition run (args : list (string * string)) (records : list record)
  : outcome :=
  match parse_options valid_fieldname truth_value args with
  | None => ConfigurationError
  | Some cfg =>
      let '(out, e) :=
        stream decode_utf8 word_tokenize pos_tag lemmatize stem stopwords
               setup_logging cfg records in
      Ran out e
  end.

End Command.

(** ** Small stand-ins for the capabilities, used to evaluate the pipeline
    on concrete records. *)

Module Toy.

Definition decode_utf8 (s : string) : option string := Some s.

(** Tokens separated by white space. *)
Definition word_tokenize (s : string) : list string := split_whitespace s.

Definition tag_of (t : string) : string :=
  if bool_decide (t = "the") then "DT"
  else if bool_decide (t = "42") then "CD"
  else if bool_decide (t = "n't") then "RB"
  else "NN".

Definition pos_tag (ts : list string) (tagset : option string)
  : result (list (string * string)) :=
  Ok ((fun t => (t, tag_of t)) <$> ts).

(** The lemmatizer on words it does not change. *)
Definition lemmatize (t : string) (p : wn_pos) : string := t.

Definition stem (t : string) : string := t.

Definition stopwords : gset string := {[ "the"; "this"; "out"; "are" ]}.

Definition valid_fieldname (s : string) : bool :=
  match s with
  | EmptyString => false
  | String c r =>
      (is_word c && negb (is_digit c)) && negb (re_search is_nonword r)
  end.

Definition truth_value (s : string) : option bool :=
  let v := lower s in
  if bool_decide (v ∈ ["1"; "t"; "true"; "y"; "yes"]) then Some true
  else if bool_decide (v ∈ ["0"; "f"; "false"; "n"; "no"]) then Some false
  else None.

Definition stream_record :=
  stream_record decode_utf8 word_tokenize pos_tag lemmatize stem stopwords.

(** The logger is set up. *)
Definition setup_logging : option error := None.

Definition run :=
  run valid_fieldname truth_value decode_utf8 word_tokenize pos_tag
      lemmatize stem stopwords setup_logging.

(** The declared defaults with the text field named [text]. *)
Definition dflt : config :=
  Config "text" true true true true "lemma" true false None.

End Toy.

(** The default options in lemma-with-POS mode. *)
Definition pos_cfg : config :=
  Config "text" true true true true "lemma_pos" true false None.

(** [default_clean] on, [base_word] and [remove_stopwords] off, [mv] off. *)
Definition joined_cfg : config :=
  Config "text" true true false false "lemma" false false None.

(** ** Further vocabulary for the properties of the helpers *)

(** Every character of the string is in the class. *)
Definition all_chars (cls : ascii -> bool) (s : string) : Prop :=
  re_search (fun c => negb (cls c)) s = false.

(** The characters a cleaned token is made of: [a]-[z] and the underscore. *)
Definition is_clean_char (c : ascii) : bool :=
  is_lower c || Ascii.eqb c "_".

(** [''.join(l)] *)
Fixpoint concat_all (l : list string) : string :=
  match l with
  | [] => EmptyString
  | t :: ts => t +:+ concat_all ts
  end.

(** The options with [force_nltk_tokenize] set to [b]. *)
Definition with_force (b : bool) (cfg : config) : config :=
  Config (textfield cfg) (default_clean cfg) (remove_urls cfg)
         (remove_stopwords cfg) (base_word cfg) (base_type cfg) (mv cfg) b
         (pos_tagset cfg).

(** The options with [mv] set to [b]. *)
Definition with_mv (b : bool) (cfg : config) : config :=
  Config (textfield cfg) (default_clean cfg) (remove_urls cfg)
         (remove_stopwords cfg) (base_word cfg) (base_type cfg) b
         (force_nltk_tokenize cfg) (pos_tagset cfg).

(** The options with [pos_tagset] set to [ts]. *)
Definition with_tagset (ts : option string) (cfg : config) : config :=
  Config (textfield cfg) (default_clean cfg) (remove_urls cfg)
         (remove_stopwords cfg) (base_word cfg) (base_type cfg) (mv cfg)
         (force_nltk_tokenize cfg) ts.

(** * Properties *)

#[local] Set Default Proof Using "Type".

(** ** Generic facts about the helpers *)

Global Instance IStr_inj : Inj (=) (=) IStr.
Proof. by intros s1 s2 [= ->]. Qed.

Lemma all_str_fmap (ts : list string) : all_str (IStr <$> ts) = Ok ts.
Proof.
  induction ts as [|t ts IH]; csimpl; [done|]. by rewrite IH.
Qed.

Lemma bind_Ok {A B} (a : A) (k : A -> result B) : (Ok a ≫= k) = k a.
Proof. reflexivity. Qed.

Lemma bind_Ok_inv {A B} (m : result A) (k : A -> result B) (b : B) :
  (m ≫= k) = Ok b -> exists a, m = Ok a /\ k a = Ok b.
Proof. destruct m as [a|e]; [by exists a | done]. Qed.

Lemma getitem_insert (r : record) (k : string) (v : value) :
  getitem (<[k := v]> r) k = Ok v.
Proof. unfold getitem. by rewrite lookup_insert_eq. Qed.

Lemma getitem_lookup (r : record) (k : string) (v : value) :
  r !! k = Some v -> getitem r k = Ok v.
Proof. unfold getitem. by intros ->. Qed.

Lemma bool_decide_str_true (a b : string) :
  a = b -> bool_decide (a = b) = true.
Proof. intros. by apply bool_decide_eq_true. Qed.

Section PipelineFacts.

Variable decode_utf8 : string -> option string.
Variable word_tokenize : string -> list string.
Variable pos_tag : list string -> option string -> result (list (string * string)).
Variable lemmatize : string -> wn_pos -> string.
Variable stem : string -> string.
Variable stopwords : gset string.

(** The pipeline at these capabilities. *)
Local Abbreviation is_stopword' := (is_stopword stopwords).
Local Abbreviation stage_tokenize' :=
  (stage_tokenize decode_utf8 word_tokenize pos_tag stopwords).
Local Abbreviation stage_lemma_pos' := (stage_lemma_pos lemmatize).
Local Abbreviation stage_base_stop' := (stage_base_stop lemmatize stem stopwords).
Local Abbreviation stage_base' := (stage_base lemmatize stem).
Local Abbreviation stage_stopwords' := (stage_stopwords stopwords).
Local Abbreviation reduce_stages' := (reduce_stages lemmatize stem stopwords).
Local Abbreviation through_lemma_pos' :=
  (through_lemma_pos decode_utf8 word_tokenize pos_tag lemmatize stopwords).
Local Abbreviation before_shape' :=
  (before_shape decode_utf8 word_tokenize pos_tag lemmatize stem stopwords).
Local Abbreviation stream_record' :=
  (stream_record decode_utf8 word_tokenize pos_tag lemmatize stem stopwords).

Local Abbreviation without_stopwords := (not_stopword stopwords).
Local Abbreviation flat_tokens' := (flat_tokens word_tokenize lemmatize stem stopwords).
Local Abbreviation flat_reduce' := (flat_reduce lemmatize stem stopwords).

Lemma filter_not_stopword (ts : list string) :
  filter (fun t => negb (is_stopword' t) = true) ts = without_stopwords ts.
Proof.
  unfold not_stopword. apply list_filter_iff. intros t.
  unfold is_stopword. rewrite negb_true_iff, bool_decide_eq_false. done.
Qed.

Lemma filter_all (ts : list string) :
  filter (fun _ : string => true = true) ts = ts.
Proof.
  induction ts as [|t ts IH]; [done|].
  rewrite filter_cons_True by done. by rewrite IH.
Qed.

Lemma drop_stopwords_fmap (ts : list string) :
  drop_stopwords stopwords (IStr <$> ts) = Ok (IStr <$> without_stopwords ts).
Proof.
  unfold not_stopword.
  induction ts as [|t ts IH]; csimpl; [done|]. rewrite IH. simpl.
  unfold is_stopword. case_bool_decide.
  - by rewrite filter_cons_False by (by intros ?).
  - by rewrite filter_cons_True.
Qed.

Lemma comprehend_tokens cfg keep f (r : record) ts :
  r !! textfield cfg = Some (VList (IStr <$> ts)) ->
  comprehend cfg keep f r =
    Ok (<[textfield cfg := VList (IStr <$> (f <$> filter (fun t => keep t = true) ts))]> r).
Proof.
  intros Hr. unfold comprehend. rewrite (getitem_lookup _ _ _ Hr). simpl.
  by rewrite all_str_fmap.
Qed.

(** *** The stages on a text field, one by one *)

Lemma stage_urls_text cfg (r : record) text :
  r !! textfield cfg = Some (VStr text) ->
  stage_urls cfg r = Ok (<[textfield cfg := VStr (url_stage cfg text)]> r).
Proof.
  intros Hr. unfold stage_urls, url_stage. destruct (remove_urls cfg).
  - by rewrite (getitem_lookup _ _ _ Hr).
  - by rewrite insert_id.
Qed.

Lemma stage_tokenize_flat cfg (r : record) text :
  is_lemma_pos cfg = false ->
  r !! textfield cfg = Some (VStr text) ->
  stage_tokenize' cfg r =
    Ok (<[textfield cfg := VList (IStr <$> flat_tokenize word_tokenize cfg text)]> r).
Proof.
  intros Hpos Hr. unfold stage_tokenize, flat_tokenize. rewrite Hpos.
  rewrite (getitem_lookup _ _ _ Hr). simpl.
  destruct (force_nltk_tokenize cfg); [done|].
  by destruct (default_clean cfg || base_word cfg && base_is cfg "lemma").
Qed.

Lemma stage_clean_tokens cfg (r : record) ts :
  r !! textfield cfg = Some (VList (IStr <$> ts)) ->
  stage_clean cfg r = Ok (<[textfield cfg := VList (IStr <$> flat_clean cfg ts)]> r).
Proof.
  intros Hr. unfold stage_clean, flat_clean.
  destruct (default_clean cfg && negb (base_is cfg "lemma_pos")).
  - rewrite (comprehend_tokens _ _ _ _ _ Hr). by rewrite filter_all.
  - by rewrite insert_id.
Qed.

Lemma stage_lemma_pos_off cfg (r : record) :
  is_lemma_pos cfg = false -> stage_lemma_pos' cfg r = Ok r.
Proof. intros Hpos. unfold stage_lemma_pos. by rewrite Hpos. Qed.

Lemma base_is_excl cfg a b :
  a <> b -> base_is cfg a = true -> base_is cfg b = false.
Proof.
  unfold base_is. intros Hab Ha%bool_decide_eq_true.
  apply bool_decide_eq_false. congruence.
Qed.

Lemma reduce_stages_tokens cfg (r : record) ts :
  is_lemma_pos cfg = false ->
  r !! textfield cfg = Some (VList (IStr <$> ts)) ->
  reduce_stages' cfg r =
    Ok (<[textfield cfg := VList (IStr <$> flat_reduce' cfg ts)]> r).
Proof.
  intros Hpos Hr.
  unfold reduce_stages, stage_base_stop, stage_base, stage_stopwords,
    flat_reduce, is_lemma_pos in *.
  destruct (base_word cfg) eqn:Hbw; simpl in Hpos; rewrite ?Hpos; simpl.
  - destruct (base_is cfg "lemma") eqn:Hl.
    + rewrite (base_is_excl cfg "lemma" "stem") by done.
      destruct (remove_stopwords cfg); simpl;
        rewrite (comprehend_tokens _ _ _ _ _ Hr); simpl;
        by rewrite ?filter_not_stopword, ?filter_all.
    + destruct (base_is cfg "stem") eqn:Hs.
      * destruct (remove_stopwords cfg); simpl;
          rewrite (comprehend_tokens _ _ _ _ _ Hr); simpl;
          by rewrite ?filter_not_stopword, ?filter_all.
      * destruct (remove_stopwords cfg); simpl; by rewrite insert_id.
  - destruct (remove_stopwords cfg); simpl.
    + rewrite (getitem_lookup _ _ _ Hr). simpl.
      by rewrite drop_stopwords_fmap.
    + by rewrite insert_id.
Qed.

(** Outside lemma-with-POS mode the record reaches output shaping with
    the text field rebound to [flat_tokens] and nothing else changed. *)
Lemma before_shape_flat cfg (r : record) text :
  is_lemma_pos cfg = false ->
  r !! textfield cfg = Some (VStr text) ->
  before_shape' cfg r =
    Ok (<[textfield cfg := VList (IStr <$> flat_tokens' cfg text)]> r).
Proof.
  intros Hpos Hr.
  change (before_shape' cfg r)
    with (r3 ← through_lemma_pos' cfg r; reduce_stages' cfg r3).
  unfold through_lemma_pos.
  rewrite (stage_urls_text _ _ _ Hr), bind_Ok.
  rewrite (stage_tokenize_flat _ _ (url_stage cfg text) Hpos)
    by apply lookup_insert_eq.
  rewrite bind_Ok, insert_insert_eq.
  rewrite (stage_clean_tokens _ _ (flat_tokenize word_tokenize cfg (url_stage cfg text)))
    by apply lookup_insert_eq.
  rewrite bind_Ok, insert_insert_eq.
  rewrite stage_lemma_pos_off, bind_Ok by done.
  rewrite (reduce_stages_tokens _ _ _ Hpos (lookup_insert_eq _ _ _)).
  by rewrite insert_insert_eq.
Qed.

Lemma stream_record_mv cfg (r : record) :
  mv cfg = true -> stream_record' cfg r = before_shape' cfg r.
Proof.
  intros Hmv. unfold stream_record, stage_shape. rewrite Hmv. simpl.
  by destruct (before_shape' cfg r).
Qed.

(** *** Plain lemma and stem modes *)

(** C4: with [base_word] on and [base_type] [lemma] or [stem], the token
    sequence that reaches output shaping is the lemmatizer (or stemmer)
    mapped over the cleaned tokens that are not stopwords, in their order,
    when [remove_stopwords] is on -- membership is tested on the token
    itself, before it is reduced -- and over every token when it is off.
    With [mv] on this is the field of the yielded record. *)
Theorem C4_reduce_after_stopword_filter cfg (r : record) text :
  base_word cfg = true ->
  base_type cfg = "lemma" \/ base_type cfg = "stem" ->
  r !! textfield cfg = Some (VStr text) ->
  let toks := flat_clean cfg (flat_tokenize word_tokenize cfg (url_stage cfg text)) in
  let reduce := if base_is cfg "lemma" then (fun t => lemmatize t NOUN) else stem in
  let out := reduce <$> (if remove_stopwords cfg
                         then filter (fun t => t ∉ stopwords) toks
                         else toks) in
  before_shape' cfg r = Ok (<[textfield cfg := VList (IStr <$> out)]> r)
  /\ (mv cfg = true ->
      stream_record' cfg r = Ok (<[textfield cfg := VList (IStr <$> out)]> r)).
Proof.
  intros Hbw Hbt Hr toks reduce out.
  assert (Hpos : is_lemma_pos cfg = false).
  { unfold is_lemma_pos, base_is. rewrite Hbw. simpl.
    apply bool_decide_eq_false. destruct Hbt as [-> | ->]; discriminate. }
  assert (Hflat : flat_tokens' cfg text = out).
  { unfold flat_tokens, flat_reduce, out, reduce, not_stopword. fold toks.
    rewrite Hbw. destruct Hbt as [Hbt | Hbt].
    - unfold base_is. rewrite Hbt. by rewrite !bool_decide_eq_true_2.
    - unfold base_is. rewrite Hbt.
      rewrite (bool_decide_eq_false_2 ("stem" = "lemma")) by discriminate.
      by rewrite bool_decide_eq_true_2. }
  pose proof (before_shape_flat cfg r text Hpos Hr) as Hflat'.
  rewrite Hflat in Hflat'. split; [done|].
  intros Hmv. by rewrite stream_record_mv.
Qed.

(** *** The stopword-only stage *)

(** C5: the stopword-only stage fires exactly when [base_word] is off and
    [remove_stopwords] is on.  When it fires, a token is in the result
    precisely when it is in the input and no member of the stopword set;
    the result is a subsequence of the input (order kept, nothing
    rewritten), every occurrence of a token outside the set survives and
    no occurrence of a member does.  When it does not fire the record is
    returned as it is. *)
Theorem C5_stopword_stage_exact cfg (r : record) ts :
  r !! textfield cfg = Some (VList (IStr <$> ts)) ->
  (remove_stopwords cfg = true -> base_word cfg = false ->
     exists out,
       stage_stopwords' cfg r = Ok (<[textfield cfg := VList (IStr <$> out)]> r)
       /\ (forall t, t ∈ out <-> t ∈ ts /\ t ∉ stopwords)
       /\ out `sublist_of` ts
       /\ (forall t, t ∉ stopwords ->
             length (filter (fun x => x = t) out)
             = length (filter (fun x => x = t) ts))
       /\ (forall t, t ∈ stopwords -> length (filter (fun x => x = t) out) = 0))
  /\ (remove_stopwords cfg && negb (base_word cfg) = false ->
      stage_stopwords' cfg r = Ok r).
Proof.
  intros Hr. split.
  - intros Hrs Hbw. exists (without_stopwords ts).
    split; [|split; [|split; [|split]]].
    + unfold stage_stopwords. rewrite Hrs, Hbw. simpl.
      rewrite (getitem_lookup _ _ _ Hr). simpl.
      by rewrite drop_stopwords_fmap.
    + intros t. unfold not_stopword. rewrite list_elem_of_filter.
      split; intros [? ?]; done.
    + apply sublist_filter.
    + intros t Ht. unfold not_stopword. rewrite list_filter_filter.
      f_equal. apply list_filter_iff. intros x. split; [by intros [? ?]|].
      intros ->. done.
    + intros t Ht. unfold not_stopword. rewrite list_filter_filter.
      rewrite (list_filter_iff _ (fun _ => False)).
      * clear Hr. induction ts as [|x l IH]; [done|].
        by rewrite filter_cons_False by (by intros ?).
      * intros x. split; [|done]. intros [-> ?]. done.
  - intros Hoff. unfold stage_stopwords. by rewrite Hoff.
Qed.

(** *** An unrecognised base type *)

(** C10: with [base_word] on and a [base_type] that is none of [lemma],
    [lemma_pos] and [stem], neither base-form reduction nor stopword
    filtering takes place, whatever [remove_stopwords] says: the tokens of
    stage 1 (branch b or c), cleaned when [default_clean] is on, reach
    output shaping as they are, stopwords included. *)
Theorem C10_unknown_base_type_passes_tokens cfg (r : record) text :
  base_word cfg = true ->
  base_type cfg <> "lemma" ->
  base_type cfg <> "lemma_pos" ->
  base_type cfg <> "stem" ->
  r !! textfield cfg = Some (VStr text) ->
  let text' := if remove_urls cfg then f_remove_urls text else text in
  let toks := if force_nltk_tokenize cfg then word_tokenize text'
              else if default_clean cfg then re_split_nonword text'
                   else split_whitespace text' in
  let out := if default_clean cfg then clean <$> toks else toks in
  before_shape' cfg r = Ok (<[textfield cfg := VList (IStr <$> out)]> r)
  /\ stream_record' cfg r
     = stage_shape cfg (<[textfield cfg := VList (IStr <$> out)]> r).
Proof.
  intros Hbw Hl Hp Hs Hr text' toks out.
  assert (Hpos : is_lemma_pos cfg = false).
  { unfold is_lemma_pos, base_is. rewrite Hbw. simpl.
    by apply bool_decide_eq_false. }
  assert (Hflat : flat_tokens' cfg text = out).
  { unfold flat_tokens, flat_reduce, flat_clean, flat_tokenize, url_stage,
      base_is.
    rewrite Hbw.
    rewrite (bool_decide_eq_false_2 (base_type cfg = "lemma")) by done.
    rewrite (bool_decide_eq_false_2 (base_type cfg = "stem")) by done.
    rewrite (bool_decide_eq_false_2 (base_type cfg = "lemma_pos")) by done.
    simpl. rewrite !andb_true_r, !orb_false_r. done. }
  pose proof (before_shape_flat cfg r text Hpos Hr) as Hflat'.
  rewrite Hflat in Hflat'. split; [done|].
  unfold stream_record. by rewrite Hflat'.
Qed.

(** *** Default cleaning is gated on the base type alone *)

(** Whenever [base_type] is [lemma_pos] and [base_word] is off, stage 2 is
    skipped although branch 1a did not fire: the tokens reach output
    shaping uncleaned, even with [default_clean] on. *)
Lemma clean_skipped_without_base_word cfg (r : record) text :
  base_word cfg = false ->
  base_type cfg = "lemma_pos" ->
  r !! textfield cfg = Some (VStr text) ->
  let toks := flat_tokenize word_tokenize cfg (url_stage cfg text) in
  before_shape' cfg r =
    Ok (<[textfield cfg := VList (IStr <$>
           (if remove_stopwords cfg then filter (fun t => t ∉ stopwords) toks
            else toks))]> r).
Proof.
  intros Hbw Hbt Hr toks.
  assert (Hpos : is_lemma_pos cfg = false).
  { unfold is_lemma_pos. by rewrite Hbw. }
  rewrite (before_shape_flat cfg r text Hpos Hr).
  unfold flat_tokens, flat_reduce, flat_clean, base_is. rewrite Hbw, Hbt.
  rewrite bool_decide_eq_true_2 by done. simpl. by rewrite andb_false_r.
Qed.

(** C2 (evaluation at the failing configuration): [default_clean] on,
    [base_word] off, [base_type] [lemma_pos].  Branch 1a does not fire, the
    text is split on non-word runs, and stage 2 does not run: the record
    is yielded with the tokens [Cats] and [42], neither lowercased nor
    stripped of digits, where cleaning gives [cats] and the empty token. *)
Theorem C2_clean_skipped_at_failing_input :
  let cfg := Config "text" true true false false "lemma_pos" true false None in
  stream_record' cfg {[ "text" := VStr "Cats 42" ]}
    = Ok {[ "text" := VList [IStr "Cats"; IStr "42"] ]}
  /\ is_lemma_pos cfg = false
  /\ clean <$> ["Cats"; "42"] = ["cats"; ""].
Proof.
  intros cfg. split; [|done].
  rewrite stream_record_mv by done.
  rewrite (clean_skipped_without_base_word cfg _ "Cats 42") by done.
  simpl. by rewrite insert_singleton_eq.
Qed.

End PipelineFacts.


(** ** Lemma-with-POS mode *)

Section PosFacts.

Variable decode_utf8 : string -> option string.
Variable word_tokenize : string -> list string.
Variable pos_tag : list string -> option string -> result (list (string * string)).
Variable lemmatize : string -> wn_pos -> string.
Variable stem : string -> string.
Variable stopwords : gset string.

Local Abbreviation stage_tokenize' :=
  (stage_tokenize decode_utf8 word_tokenize pos_tag stopwords).
Local Abbreviation stage_lemma_pos' := (stage_lemma_pos lemmatize).
Local Abbreviation through_lemma_pos' :=
  (through_lemma_pos decode_utf8 word_tokenize pos_tag lemmatize stopwords).
Local Abbreviation before_shape' :=
  (before_shape decode_utf8 word_tokenize pos_tag lemmatize stem stopwords).
Local Abbreviation stream_record' :=
  (stream_record decode_utf8 word_tokenize pos_tag lemmatize stem stopwords).
Local Abbreviation kept' := (kept lemmatize).
Local Abbreviation step' := (lemma_pos_step lemmatize).

(** *** The loop of lines 212-222 *)

Lemma rebind_twice K (m : gmap string binding) :
  rebind K (<["pos_tuple" := Obj LTuples]> (<["pos_tag" := Obj LTags]> m))
  = <["pos_tuple" := Obj LTuples]> (<["pos_tag" := Obj LTags]> m).
Proof.
  destruct K as [|p K]; [done|]. simpl.
  apply map_eq. intros k. rewrite !lookup_insert.
  repeat case_decide; done.
Qed.

Lemma index_pair (it : item) :
  is_pair it -> index0 it = Ok (as_pair it).1 /\ index1 it = Ok (as_pair it).2.
Proof. by destruct it. Qed.

Lemma kept_cons (it : item) its :
  kept' (it :: its) =
    if bool_decide ((lemma_of lemmatize (as_pair it)).1 = EmptyString)
    then kept' its
    else lemma_of lemmatize (as_pair it) :: kept' its.
Proof.
  unfold kept. rewrite !fmap_cons. case_bool_decide.
  - by rewrite filter_cons_False by (by intros ?).
  - by rewrite filter_cons_True.
Qed.

Lemma step_pair cfg (st : lstate) (it : item) :
  is_pair it ->
  step' cfg st it =
    let p := lemma_of lemmatize (as_pair it) in
    if bool_decide (p.1 = EmptyString) then Ok st
    else
      st1 ← append_field cfg st (IStr p.1);
      Ok (LState (<["pos_tuple" := Obj LTuples]>
                    (<["pos_tag" := Obj LTags]> (ls_rec st1)))
                 (happend (happend (ls_heap st1) LTuples (ITuple p.1 p.2))
                          LTags (IStr p.2))).
Proof. by destruct it. Qed.

Lemma loop_run cfg its (st : lstate) :
  Forall (is_pair) its ->
  textfield cfg <> "pos_tag" ->
  textfield cfg <> "pos_tuple" ->
  ls_rec st !! textfield cfg = Some (Obj LField) ->
  for_each (step' cfg) st its =
    Ok (LState (rebind (kept' its) (ls_rec st))
               (heap_add (kept' its) (ls_heap st))).
Proof.
  intros Hits Htag Htup. revert st.
  induction Hits as [|it its Hit Hits IH]; intros st Hst.
  - simpl. destruct st as [m [hf h0 ht hg]]. unfold heap_add, tuples_of.
    simpl. by rewrite !app_nil_r.
  - cbn [for_each]. rewrite kept_cons.
    rewrite (step_pair cfg st it Hit). cbv zeta.
    case_bool_decide as Hk.
    + rewrite bind_Ok. by apply IH.
    + unfold append_field. rewrite Hst. rewrite !bind_Ok.
      cbn [ls_rec ls_heap].
      rewrite IH.
      * simpl. rewrite rebind_twice. f_equal. f_equal.
        destruct st as [m [hf h0 ht hg]]. unfold heap_add, tuples_of. simpl.
        by rewrite <- !app_assoc.
      * simpl. by rewrite !lookup_insert_ne by done.
Qed.

Lemma deref_fmap_Val (h : lheap) (r : record) :
  deref h <$> (Val <$> r) = r.
Proof.
  apply map_eq. intros k. rewrite !lookup_fmap. by destruct (r !! k).
Qed.

(** The stage when the text field has a name of its own. *)
Lemma stage_lemma_pos_normal cfg (r : record) its :
  is_lemma_pos cfg = true ->
  textfield cfg <> "pos_tag" ->
  textfield cfg <> "pos_tuple" ->
  r !! "pos_tuple" = Some (VList its) ->
  Forall is_pair its ->
  stage_lemma_pos' cfg r = Ok (pos_result (textfield cfg) (kept' its) r).
Proof.
  intros Hpos Htag Htup Hr Hits. unfold stage_lemma_pos. rewrite Hpos.
  assert (Hitems : loop_items (loop_init cfg r) = Ok its).
  { unfold loop_items, loop_init. cbn [ls_rec].
    rewrite lookup_insert_ne by done.
    rewrite lookup_insert_ne by done.
    rewrite lookup_fmap, Hr. done. }
  rewrite Hitems, bind_Ok.
  rewrite (loop_run cfg its _ Hits Htag Htup).
  2:{ unfold loop_init. cbn [ls_rec].
      rewrite lookup_insert_ne by done. by rewrite lookup_insert_eq. }
  rewrite bind_Ok. f_equal. cbn [ls_rec ls_heap]. unfold loop_init.
  cbn [ls_rec ls_heap]. unfold pos_result, rebind, heap_add.
  destruct (kept' its) as [|p K]; cbn [h_field h_tag0 h_tuples h_tags app].
  - rewrite !fmap_insert. cbn [deref hget h_field h_tag0].
    by rewrite deref_fmap_Val.
  - rewrite !fmap_insert. cbn [deref hget h_field h_tag0 h_tuples h_tags app].
    rewrite deref_fmap_Val.
    apply map_eq. intros k. rewrite !lookup_insert.
    repeat case_decide; done.
Qed.

(** *** The loop under any name of the text field *)

Lemma bound_obj_rebound (m : gmap string binding) (k : string) :
  bound_obj m k ->
  bound_obj (<["pos_tuple" := Obj LTuples]> (<["pos_tag" := Obj LTags]> m)) k.
Proof.
  intros [o Ho]. unfold bound_obj. rewrite !lookup_insert.
  repeat case_decide; eauto.
Qed.

Lemma loop_total cfg its (st : lstate) :
  Forall is_pair its ->
  bound_obj (ls_rec st) (textfield cfg) ->
  bound_obj (ls_rec st) "pos_tag" ->
  exists st',
    for_each (step' cfg) st its = Ok st'
    /\ bound_obj (ls_rec st') (textfield cfg)
    /\ bound_obj (ls_rec st') "pos_tag".
Proof.
  intros Hits. revert st.
  induction Hits as [|it its Hit Hits IH]; intros st Htf Htag.
  - exists st. by cbn.
  - cbn [for_each]. rewrite (step_pair cfg st it Hit). cbv zeta.
    case_bool_decide as Hk.
    + rewrite bind_Ok. by apply IH.
    + unfold append_field. destruct Htf as [o Ho]. rewrite Ho.
      rewrite !bind_Ok. cbn [ls_rec ls_heap].
      apply IH; cbn [ls_rec]; apply bound_obj_rebound; [by exists o|done].
Qed.

Lemma inline_filter_pairs cfg pairs :
  Forall is_pair (inline_filter stopwords cfg pairs).
Proof.
  unfold inline_filter, inline_clean_stop, inline_clean.
  destruct (default_clean cfg && remove_stopwords cfg);
    [|destruct (default_clean cfg && negb (remove_stopwords cfg))];
    apply Forall_fmap, Forall_forall; intros; exact I.
Qed.

(** The stage on a record whose [pos_tuple] holds tagged pairs: it
    returns, the text field and [pos_tag] hold lists of one length, and
    with a text field named neither [pos_tag] nor [pos_tuple] the record
    is [pos_result]. *)
Lemma stage_lemma_pos_total cfg (r : record) its :
  is_lemma_pos cfg = true ->
  r !! "pos_tuple" = Some (VList its) ->
  Forall is_pair its ->
  exists r3 toks tags,
    stage_lemma_pos' cfg r = Ok r3
    /\ r3 !! textfield cfg = Some (VList toks)
    /\ r3 !! "pos_tag" = Some (VList tags)
    /\ length toks = length tags
    /\ (textfield cfg <> "pos_tag" -> textfield cfg <> "pos_tuple" ->
        r3 = pos_result (textfield cfg) (kept' its) r).
Proof.
  intros Hpos Hr Hits.
  destruct (decide (textfield cfg = "pos_tuple")) as [Htup|Htup];
    [|destruct (decide (textfield cfg = "pos_tag")) as [Htag|Htag]].
  - (* the text field is [pos_tuple]: line 210 empties the list the loop
       runs over *)
    unfold stage_lemma_pos. rewrite Hpos.
    unfold loop_items, loop_init. cbn [ls_rec ls_heap]. rewrite Htup.
    rewrite lookup_insert_ne by done. rewrite lookup_insert_eq.
    cbn [hget h_field]. rewrite bind_Ok. cbn [for_each].
    rewrite bind_Ok. cbn [ls_rec ls_heap].
    eexists _, [], []. split; [done|].
    rewrite !lookup_fmap, lookup_insert_eq.
    rewrite lookup_insert_ne by done. rewrite lookup_insert_eq.
    repeat split; try done.
  - (* the text field is [pos_tag]: one field, one list *)
    unfold stage_lemma_pos. rewrite Hpos.
    assert (Hitems : loop_items (loop_init cfg r) = Ok its).
    { unfold loop_items, loop_init. cbn [ls_rec]. rewrite Htag.
      rewrite !lookup_insert_ne by done.
      rewrite lookup_fmap, Hr. done. }
    rewrite Hitems, bind_Ok.
    destruct (loop_total cfg its (loop_init cfg r) Hits)
      as (st' & Hrun & [o Ho] & _).
    { exists LTag0. unfold loop_init. cbn [ls_rec]. rewrite Htag.
      by rewrite lookup_insert_eq. }
    { exists LTag0. unfold loop_init. cbn [ls_rec].
      by rewrite lookup_insert_eq. }
    rewrite Hrun, bind_Ok.
    exists (deref (ls_heap st') <$> ls_rec st'),
           (hget (ls_heap st') o), (hget (ls_heap st') o).
    split; [done|]. rewrite Htag in Ho |- *. rewrite lookup_fmap, Ho.
    repeat split; try done.
  - rewrite (stage_lemma_pos_normal cfg r its) by done.
    eexists _, (IStr <$> (kept' its).*1), (IStr <$> (kept' its).*2).
    split; [done|]. unfold pos_result.
    destruct (kept' its) as [|p K] eqn:HK.
    + rewrite lookup_insert_ne by done. rewrite !lookup_insert_eq. done.
    + rewrite !(lookup_insert_ne _ "pos_tuple") by done.
      rewrite lookup_insert_ne by done. rewrite !lookup_insert_eq.
      repeat split; try done. by rewrite !length_fmap.
Qed.

(** *** Branch 1a *)

Lemma is_lemma_pos_true cfg :
  is_lemma_pos cfg = true ->
  base_word cfg = true /\ base_is cfg "lemma_pos" = true.
Proof. unfold is_lemma_pos. by intros [? ?]%andb_true_iff. Qed.

Lemma stage_tokenize_pos cfg (r : record) text u pairs :
  is_lemma_pos cfg = true ->
  r !! textfield cfg = Some (VStr text) ->
  decode_utf8 text = Some u ->
  pos_tag (word_tokenize u) (pos_tagset cfg) = Ok pairs ->
  stage_tokenize' cfg r =
    Ok (<["pos_tuple" := VList (inline_filter stopwords cfg pairs)]> r).
Proof.
  intros Hpos Hr Hu Hp. unfold stage_tokenize. rewrite Hpos.
  cbn [orb]. rewrite (getitem_lookup _ _ _ Hr), bind_Ok.
  cbn [as_text]. rewrite bind_Ok, Hu. cbn [of_option].
  by rewrite bind_Ok, Hp, bind_Ok.
Qed.

(** C1 (as amended): in the part-of-speech path the inline filter is
    gated by [default_clean].  With [default_clean] and [remove_stopwords]
    on, the pairs stored under [pos_tuple] are the tagged pairs whose raw
    token holds no non-word character and whose cleaned token is no
    stopword, in order, each with its token cleaned and lowercased; with
    [default_clean] on and [remove_stopwords] off the stopword test is
    left out; with [default_clean] off the tagged pairs are stored as the
    tagger returned them.  A token that cleans to the empty string is not
    dropped here unless the empty string is a stopword. *)
Theorem C1_inline_filter_gated_by_default_clean cfg (r : record) text u pairs :
  is_lemma_pos cfg = true ->
  r !! textfield cfg = Some (VStr text) ->
  decode_utf8 text = Some u ->
  pos_tag (word_tokenize u) (pos_tagset cfg) = Ok pairs ->
  exists stored,
    stage_tokenize' cfg r = Ok (<["pos_tuple" := VList stored]> r)
    /\ (default_clean cfg = true -> remove_stopwords cfg = true ->
        stored = (fun p => IList (clean p.1) p.2) <$>
                   filter (fun p => has_nonword p.1 = false
                                    /\ clean p.1 ∉ stopwords) pairs)
    /\ (default_clean cfg = true -> remove_stopwords cfg = false ->
        stored = (fun p => IList (clean p.1) p.2) <$>
                   filter (fun p => has_nonword p.1 = false) pairs)
    /\ (default_clean cfg = false ->
        stored = (fun p => ITuple p.1 p.2) <$> pairs).
Proof.
  intros Hpos Hr Hu Hp. exists (inline_filter stopwords cfg pairs).
  split; [by apply (stage_tokenize_pos cfg r text u)|].
  unfold inline_filter, inline_clean_stop, inline_clean.
  split; [|split].
  - intros -> ->. cbn [andb]. f_equal. apply list_filter_iff. intros p.
    unfold is_stopword.
    rewrite andb_true_iff, !negb_true_iff, bool_decide_eq_false.
    split; intros [? ?]; done.
  - intros -> ->. cbn [andb negb]. f_equal. apply list_filter_iff.
    intros p. by rewrite negb_true_iff.
  - by intros ->.
Qed.

(** *** The base-reduction stage of lemma-with-POS mode *)

Lemma through_pos cfg (r : record) text u pairs :
  is_lemma_pos cfg = true ->
  r !! textfield cfg = Some (VStr text) ->
  decode_utf8 (url_stage cfg text) = Some u ->
  pos_tag (word_tokenize u) (pos_tagset cfg) = Ok pairs ->
  through_lemma_pos' cfg r =
    stage_lemma_pos' cfg
      (<["pos_tuple" := VList (inline_filter stopwords cfg pairs)]>
         (<[textfield cfg := VStr (url_stage cfg text)]> r)).
Proof.
  intros Hpos Hr Hu Hp. unfold through_lemma_pos.
  rewrite (stage_urls_text _ _ _ Hr), bind_Ok.
  rewrite (stage_tokenize_pos cfg _ (url_stage cfg text) u pairs Hpos)
    by (done || apply lookup_insert_eq).
  rewrite bind_Ok. unfold stage_clean.
  destruct (is_lemma_pos_true cfg Hpos) as [_ ->].
  cbn [negb]. by rewrite andb_false_r, bind_Ok.
Qed.

Lemma after_pos cfg (r : record) :
  is_lemma_pos cfg = true ->
  (r4 ← stage_base_stop lemmatize stem stopwords cfg r;
   r5 ← stage_base lemmatize stem cfg r4;
   stage_stopwords stopwords cfg r5) = Ok r.
Proof.
  intros Hpos. destruct (is_lemma_pos_true cfg Hpos) as [Hbw Hbt].
  unfold stage_base_stop, stage_base, stage_stopwords.
  rewrite Hbw, Hbt. cbn [negb]. rewrite !andb_false_r.
  rewrite (base_is_excl cfg "lemma_pos" "lemma") by done.
  rewrite (base_is_excl cfg "lemma_pos" "stem") by done.
  rewrite bind_Ok, andb_true_r. by destruct (negb (remove_stopwords cfg)).
Qed.

(** C6: in lemma-with-POS mode, for every record whose text is decoded
    and tagged, the pipeline returns from the base-reduction stage with
    the text field and the [pos_tag] field holding lists of the same
    length.  With a text field named neither [pos_tag] nor [pos_tuple] the
    two are parallel: the lemmas and the tags of exactly the pairs whose
    lemma is non-empty, in order -- an empty lemma and its tag are both
    left out, so no tag stands for a dropped lemma.  The later stages do
    not touch the record, which is the one yielded when [mv] is on. *)
Theorem C6_lemma_pos_fields_parallel cfg (r : record) text u pairs :
  is_lemma_pos cfg = true ->
  r !! textfield cfg = Some (VStr text) ->
  decode_utf8 (url_stage cfg text) = Some u ->
  pos_tag (word_tokenize u) (pos_tagset cfg) = Ok pairs ->
  exists r3 toks tags,
    through_lemma_pos' cfg r = Ok r3
    /\ r3 !! textfield cfg = Some (VList toks)
    /\ r3 !! "pos_tag" = Some (VList tags)
    /\ length toks = length tags
    /\ (textfield cfg <> "pos_tag" -> textfield cfg <> "pos_tuple" ->
        let K := kept' (inline_filter stopwords cfg pairs) in
        toks = IStr <$> K.*1 /\ tags = IStr <$> K.*2
        /\ Forall (fun p => p.1 <> EmptyString) K
        /\ K = filter (fun p => p.1 <> EmptyString)
                     (lemma_of lemmatize <$>
                        (as_pair <$> inline_filter stopwords cfg pairs)))
    /\ before_shape' cfg r = Ok r3
    /\ (mv cfg = true -> stream_record' cfg r = Ok r3).
Proof.
  intros Hpos Hr Hu Hp.
  pose proof (through_pos cfg r text u pairs Hpos Hr Hu Hp) as Hthrough.
  destruct (stage_lemma_pos_total cfg
              (<["pos_tuple" := VList (inline_filter stopwords cfg pairs)]>
                 (<[textfield cfg := VStr (url_stage cfg text)]> r))
              (inline_filter stopwords cfg pairs) Hpos
              (lookup_insert_eq _ _ _) (inline_filter_pairs cfg pairs))
    as (r3 & toks & tags & Hrun & Htoks & Htags & Hlen & Hnormal).
  rewrite Hrun in Hthrough.
  assert (Hbefore : before_shape' cfg r = Ok r3).
  { unfold before_shape. rewrite Hthrough, bind_Ok. by apply after_pos. }
  exists r3, toks, tags. split; [done|]. split; [done|]. split; [done|].
  split; [done|]. split.
  - intros Htag Htup K. specialize (Hnormal Htag Htup). subst r3.
    fold K in Htoks, Htags. unfold pos_result in Htoks, Htags.
    assert (HK : Forall (fun p : string * string => p.1 <> EmptyString) K).
    { unfold K, kept. apply Forall_forall. intros p Hin.
      by apply list_elem_of_filter in Hin as [? _]. }
    destruct K as [|p K'] eqn:HKeq.
    + rewrite lookup_insert_ne in Htoks by done.
      rewrite lookup_insert_eq in Htoks, Htags.
      by simplify_eq.
    + rewrite !(lookup_insert_ne _ "pos_tuple") in Htoks, Htags by done.
      rewrite lookup_insert_ne in Htoks by done.
      rewrite lookup_insert_eq in Htoks, Htags.
      by simplify_eq.
  - split; [done|]. intros Hmv. by rewrite stream_record_mv.
Qed.

Lemma pos_result_lookups tf K (r : record) :
  tf <> "pos_tag" -> tf <> "pos_tuple" ->
  pos_result tf K r !! tf = Some (VList (IStr <$> K.*1))
  /\ pos_result tf K r !! "pos_tag" = Some (VList (IStr <$> K.*2))
  /\ pos_result tf K r !! "pos_tuple"
     = match K with
       | [] => r !! "pos_tuple"
       | _ :: _ => Some (VList (tuples_of K))
       end.
Proof.
  intros Htag Htup. unfold pos_result. destruct K as [|p K].
  - rewrite lookup_insert_ne by done. rewrite !lookup_insert_eq.
    by rewrite !lookup_insert_ne by done.
  - rewrite !(lookup_insert_ne _ "pos_tuple") by done.
    rewrite lookup_insert_ne by done. by rewrite !lookup_insert_eq.
Qed.

Lemma before_shape_pos cfg (r : record) text u pairs :
  is_lemma_pos cfg = true ->
  textfield cfg <> "pos_tag" ->
  textfield cfg <> "pos_tuple" ->
  r !! textfield cfg = Some (VStr text) ->
  decode_utf8 (url_stage cfg text) = Some u ->
  pos_tag (word_tokenize u) (pos_tagset cfg) = Ok pairs ->
  before_shape' cfg r =
    Ok (pos_result (textfield cfg) (kept' (inline_filter stopwords cfg pairs))
          (<["pos_tuple" := VList (inline_filter stopwords cfg pairs)]>
             (<[textfield cfg := VStr (url_stage cfg text)]> r))).
Proof.
  intros Hpos Htag Htup Hr Hu Hp. unfold before_shape.
  rewrite (through_pos cfg r text u pairs Hpos Hr Hu Hp).
  rewrite (stage_lemma_pos_normal cfg _ (inline_filter stopwords cfg pairs));
    [|done|done|done|apply lookup_insert_eq|apply inline_filter_pairs].
  rewrite bind_Ok. by apply after_pos.
Qed.

(** *** What the loop leaves under [pos_tuple] *)

(** In lemma-with-POS mode the pipeline only gets past tagging on a
    record whose text field holds a string that is decoded and tagged. *)
Lemma through_pos_inv cfg (r r3 : record) :
  is_lemma_pos cfg = true ->
  through_lemma_pos' cfg r = Ok r3 ->
  exists text u pairs,
    r !! textfield cfg = Some (VStr text)
    /\ decode_utf8 (url_stage cfg text) = Some u
    /\ pos_tag (word_tokenize u) (pos_tagset cfg) = Ok pairs.
Proof.
  intros Hpos H. unfold through_lemma_pos in H.
  apply bind_Ok_inv in H as (r0 & H0 & H).
  apply bind_Ok_inv in H as (r1 & H1 & _).
  unfold stage_tokenize in H1. rewrite Hpos in H1. cbn [orb] in H1.
  apply bind_Ok_inv in H1 as (v & Hv & H1).
  apply bind_Ok_inv in H1 as (t & Ht & H1).
  apply bind_Ok_inv in H1 as (u & Hu & H1).
  apply bind_Ok_inv in H1 as (pairs & Hp & _).
  destruct v as [t'|l]; cbn in Ht; [|done]. injection Ht as ->.
  unfold getitem in Hv.
  destruct (r0 !! textfield cfg) as [w|] eqn:Hr0; cbn in Hv; [|done].
  injection Hv as ->.
  destruct (decode_utf8 t) as [u'|] eqn:Hd; cbn in Hu; [|done].
  injection Hu as ->.
  unfold stage_urls in H0. unfold url_stage.
  destruct (remove_urls cfg).
  - apply bind_Ok_inv in H0 as (v & Hv & H0).
    apply bind_Ok_inv in H0 as (text & Htext & H0). injection H0 as <-.
    rewrite lookup_insert_eq in Hr0. injection Hr0 as <-.
    destruct v as [t'|l]; cbn in Htext; [|done]. injection Htext as ->.
    unfold getitem in Hv.
    destruct (r !! textfield cfg) as [w|]; cbn in Hv; [|done].
    injection Hv as ->. by exists text, u, pairs.
  - injection H0 as <-. by exists t, u, pairs.
Qed.

(** The loop under any name of the text field but [pos_tuple]: the text
    field is bound to a list other than [tuple_list], which so receives
    the tuples of the kept pairs and nothing else. *)
Lemma loop_tuples cfg its (st : lstate) :
  Forall is_pair its ->
  textfield cfg <> "pos_tuple" ->
  (exists o, ls_rec st !! textfield cfg = Some (Obj o) /\ o <> LTuples) ->
  exists st',
    for_each (step' cfg) st its = Ok st'
    /\ h_tuples (ls_heap st') = h_tuples (ls_heap st) ++ tuples_of (kept' its)
    /\ ls_rec st' !! "pos_tuple"
       = match kept' its with
         | [] => ls_rec st !! "pos_tuple"
         | _ :: _ => Some (Obj LTuples)
         end.
Proof.
  intros Hits Htup. revert st.
  induction Hits as [|it its Hit Hits IH]; intros st (o & Ho & Hne).
  - exists st. cbn. by rewrite app_nil_r.
  - cbn [for_each]. rewrite kept_cons, (step_pair cfg st it Hit). cbv zeta.
    case_bool_decide as Hk.
    + rewrite bind_Ok. apply IH. by exists o.
    + unfold append_field. rewrite Ho, !bind_Ok. cbn [ls_rec ls_heap].
      match goal with |- context [for_each _ ?s its] => set (st1 := s) end.
      destruct (IH st1) as (st' & Hrun & Hh & Hb).
      { subst st1. cbn [ls_rec].
        destruct (decide (textfield cfg = "pos_tag")) as [Htag|Htag].
        - exists LTags. rewrite lookup_insert_ne by done.
          by rewrite Htag, lookup_insert_eq.
        - exists o. by rewrite !lookup_insert_ne by done. }
      exists st'. split; [done|]. split.
      * rewrite Hh. subst st1. cbn [ls_heap].
        destruct o; [| |done|]; cbn; by rewrite <- app_assoc.
      * rewrite Hb. subst st1. cbn [ls_rec]. rewrite lookup_insert_eq.
        by destruct (kept' its).
Qed.

(** The stage when the text field is not named [pos_tuple]: [pos_tuple]
    is rebound to the tuples of the kept pairs when a pair is kept, and
    keeps the pairs of stage 1 otherwise. *)
Lemma stage_lemma_pos_tuples cfg (r : record) its :
  is_lemma_pos cfg = true ->
  textfield cfg <> "pos_tuple" ->
  r !! "pos_tuple" = Some (VList its) ->
  Forall is_pair its ->
  exists r3,
    stage_lemma_pos' cfg r = Ok r3
    /\ r3 !! "pos_tuple"
       = Some (VList (match kept' its with
                      | [] => its
                      | K => tuples_of K
                      end)).
Proof.
  intros Hpos Htup Hr Hits. unfold stage_lemma_pos. rewrite Hpos.
  assert (Hitems : loop_items (loop_init cfg r) = Ok its).
  { unfold loop_items, loop_init. cbn [ls_rec].
    rewrite !lookup_insert_ne by done. by rewrite lookup_fmap, Hr. }
  rewrite Hitems, bind_Ok.
  destruct (loop_tuples cfg its (loop_init cfg r) Hits Htup)
    as (st' & Hrun & Hh & Hb).
  { unfold loop_init. cbn [ls_rec].
    destruct (decide (textfield cfg = "pos_tag")) as [Htag|Htag].
    - exists LTag0. by rewrite Htag, lookup_insert_eq.
    - exists LField. rewrite lookup_insert_ne by done.
      by rewrite lookup_insert_eq. }
  rewrite Hrun, bind_Ok. eexists. split; [done|].
  rewrite lookup_fmap, Hb.
  destruct (kept' its) as [|p K] eqn:HK.
  - unfold loop_init. cbn [ls_rec]. rewrite !lookup_insert_ne by done.
    by rewrite lookup_fmap, Hr.
  - cbn [fmap option_fmap option_map deref hget]. by rewrite Hh.
Qed.

(** The stage when the text field is named [pos_tuple]: line 210 replaces
    the tagged pairs by the empty list the loop then runs over. *)
Lemma stage_lemma_pos_field_is_tuples cfg (r : record) :
  is_lemma_pos cfg = true ->
  textfield cfg = "pos_tuple" ->
  exists r3,
    stage_lemma_pos' cfg r = Ok r3
    /\ r3 !! "pos_tuple" = Some (VList [])
    /\ r3 !! "pos_tag" = Some (VList []).
Proof.
  intros Hpos Htup. unfold stage_lemma_pos. rewrite Hpos.
  unfold loop_items, loop_init. cbn [ls_rec ls_heap]. rewrite Htup.
  rewrite lookup_insert_ne by done. rewrite lookup_insert_eq.
  cbn [hget h_field]. rewrite bind_Ok. cbn [for_each].
  rewrite bind_Ok. cbn [ls_rec ls_heap].
  eexists. split; [done|].
  rewrite !lookup_fmap, lookup_insert_eq.
  rewrite lookup_insert_ne by done. by rewrite lookup_insert_eq.
Qed.

End PosFacts.

(** ** What a record keeps: the frame of the pipeline *)

Lemma framed_refl {V} tf (r : gmap string V) : framed tf r r.
Proof. split; [by intros k | by intros k]. Qed.

Lemma framed_trans {V} tf (r1 r2 r3 : gmap string V) :
  framed tf r1 r2 -> framed tf r2 r3 -> framed tf r1 r3.
Proof.
  intros [H1 K1] [H2 K2]. split.
  - intros k ? ? ?. by rewrite H2, H1.
  - intros k ?. by apply K2, K1.
Qed.

Lemma framed_insert {V} tf (r : gmap string V) k v :
  k = tf \/ k = "pos_tag" \/ k = "pos_tuple" -> framed tf r (<[k := v]> r).
Proof.
  intros Hk. split.
  - intros j ? ? ?. rewrite lookup_insert_ne; [done|].
    by destruct Hk as [-> | [-> | ->]].
  - intros j Hj. rewrite lookup_insert. by case_decide.
Qed.

Lemma framing_bind tf (f g : record -> result record) :
  framing tf f -> framing tf g -> framing tf (fun r => r1 ← f r; g r1).
Proof.
  intros Hf Hg r r' (r1 & H1 & H2)%bind_Ok_inv.
  eapply framed_trans; [by apply Hf | by apply Hg].
Qed.

Section FrameFacts.

Variable decode_utf8 : string -> option string.
Variable word_tokenize : string -> list string.
Variable pos_tag : list string -> option string -> result (list (string * string)).
Variable lemmatize : string -> wn_pos -> string.
Variable stem : string -> string.
Variable stopwords : gset string.

Local Abbreviation stream_record' :=
  (stream_record decode_utf8 word_tokenize pos_tag lemmatize stem stopwords).

Ltac invert_binds :=
  repeat match goal with
    | H : (_ ≫= _) = Ok _ |- _ =>
        apply bind_Ok_inv in H as (? & ? & H)
    | H : Ok _ = Ok _ |- _ => injection H as <-
    | H : (if ?b then _ else _) = Ok _ |- _ => destruct b
    end.

Lemma stage_urls_framing cfg : framing (textfield cfg) (stage_urls cfg).
Proof.
  intros r r' H. unfold stage_urls in H. invert_binds.
  - apply framed_insert. by left.
  - apply framed_refl.
Qed.

Lemma stage_tokenize_framing cfg :
  framing (textfield cfg)
          (stage_tokenize decode_utf8 word_tokenize pos_tag stopwords cfg).
Proof.
  intros r r' H. unfold stage_tokenize in H. invert_binds;
    first [apply framed_refl | apply framed_insert; auto].
Qed.

Lemma comprehend_framing cfg keep f :
  framing (textfield cfg) (comprehend cfg keep f).
Proof.
  intros r r' H. unfold comprehend in H. invert_binds.
  apply framed_insert. by left.
Qed.

Lemma Ok_framing tf : framing tf Ok.
Proof. intros r r' [= <-]. apply framed_refl. Qed.

Lemma stage_clean_framing cfg : framing (textfield cfg) (stage_clean cfg).
Proof.
  unfold stage_clean. destruct (_ && _);
    [apply comprehend_framing | apply Ok_framing].
Qed.

Lemma stage_base_stop_framing cfg :
  framing (textfield cfg) (stage_base_stop lemmatize stem stopwords cfg).
Proof.
  unfold stage_base_stop. destruct (_ && _ && _); [|apply Ok_framing].
  apply (framing_bind _ (fun r => if base_is cfg "lemma" then _ else Ok r)
                        (fun r1 => if base_is cfg "stem" then _ else Ok r1)).
  - destruct (base_is cfg "lemma"); [apply comprehend_framing | apply Ok_framing].
  - destruct (base_is cfg "stem"); [apply comprehend_framing | apply Ok_framing].
Qed.

Lemma stage_base_framing cfg :
  framing (textfield cfg) (stage_base lemmatize stem cfg).
Proof.
  unfold stage_base. destruct (_ && _); [|apply Ok_framing].
  apply (framing_bind _ (fun r => if base_is cfg "lemma" then _ else Ok r)
                        (fun r1 => if base_is cfg "stem" then _ else Ok r1)).
  - destruct (base_is cfg "lemma"); [apply comprehend_framing | apply Ok_framing].
  - destruct (base_is cfg "stem"); [apply comprehend_framing | apply Ok_framing].
Qed.

Lemma stage_stopwords_framing cfg :
  framing (textfield cfg) (stage_stopwords stopwords cfg).
Proof.
  intros r r' H. unfold stage_stopwords in H. invert_binds.
  - apply framed_insert. by left.
  - apply framed_refl.
Qed.

Lemma stage_shape_framing cfg : framing (textfield cfg) (stage_shape cfg).
Proof.
  intros r r' H. unfold stage_shape in H. invert_binds; [|apply framed_refl].
  eapply framed_trans; [apply framed_insert; by left|].
  unfold try_or.
  match goal with |- context [match ?m with _ => _ end] => destruct m eqn:Hm end;
    [|apply framed_refl].
  invert_binds. apply framed_insert. auto.
Qed.

Lemma append_field_framing cfg (st st' : lstate) x :
  append_field cfg st x = Ok st' ->
  framed (textfield cfg) (ls_rec st) (ls_rec st').
Proof.
  unfold append_field. intros H.
  destruct (ls_rec st !! textfield cfg) as [[[s|l]|o]|]; simplify_eq; cbn.
  - apply framed_insert. by left.
  - apply framed_refl.
Qed.

Lemma step_framing cfg (st st' : lstate) (it : item) :
  lemma_pos_step lemmatize cfg st it = Ok st' ->
  framed (textfield cfg) (ls_rec st) (ls_rec st').
Proof.
  unfold lemma_pos_step. intros H.
  apply bind_Ok_inv in H as (t0 & _ & H).
  apply bind_Ok_inv in H as (t1 & _ & H).
  case_bool_decide.
  - injection H as <-. apply framed_refl.
  - apply bind_Ok_inv in H as (st1 & H1 & H). injection H as <-. cbn.
    eapply framed_trans; [by eapply append_field_framing|].
    eapply framed_trans; apply framed_insert; auto.
Qed.

Lemma loop_framing cfg its (st st' : lstate) :
  for_each (lemma_pos_step lemmatize cfg) st its = Ok st' ->
  framed (textfield cfg) (ls_rec st) (ls_rec st').
Proof.
  revert st. induction its as [|it its IH]; intros st H; cbn in H.
  - injection H as <-. apply framed_refl.
  - apply bind_Ok_inv in H as (st1 & H1 & H).
    eapply framed_trans; [by eapply step_framing | by apply IH].
Qed.

Lemma stage_lemma_pos_framing cfg :
  framing (textfield cfg) (stage_lemma_pos lemmatize cfg).
Proof.
  intros r r' H. unfold stage_lemma_pos in H.
  destruct (is_lemma_pos cfg); [|injection H as <-; apply framed_refl].
  apply bind_Ok_inv in H as (its & _ & H).
  apply bind_Ok_inv in H as (st & Hloop & H). injection H as <-.
  apply loop_framing in Hloop as [Hsame Hkeep].
  unfold loop_init in Hsame, Hkeep. cbn [ls_rec] in Hsame, Hkeep. split.
  - intros k Hk1 Hk2 Hk3. rewrite lookup_fmap, Hsame by done.
    rewrite !lookup_insert_ne by done. rewrite lookup_fmap.
    by destruct (r !! k).
  - intros k Hk. rewrite lookup_fmap. apply fmap_is_Some, Hkeep.
    rewrite !lookup_insert. repeat case_decide; [done..|].
    rewrite lookup_fmap. by apply fmap_is_Some.
Qed.

Lemma stream_record_framing cfg : framing (textfield cfg) (stream_record' cfg).
Proof.
  unfold stream_record, before_shape, through_lemma_pos.
  repeat (apply framing_bind ||
          apply (framing_bind _ (fun r => _ ≫= _) _)).
  - apply stage_urls_framing.
  - apply stage_tokenize_framing.
  - apply stage_clean_framing.
  - apply stage_lemma_pos_framing.
  - apply stage_base_stop_framing.
  - apply stage_base_framing.
  - apply stage_stopwords_framing.
  - apply stage_shape_framing.
Qed.

End FrameFacts.

(** ** Output shaping *)

Lemma split_space_no_blank (t : string) :
  no_blank t -> split_space t = [t].
Proof.
  unfold no_blank. induction t as [|c t IH]; [done|].
  cbn [re_search split_space].
  intros [Hc Ht]%orb_false_iff. rewrite Hc, (IH Ht). done.
Qed.

Lemma split_space_app (t s : string) :
  no_blank t ->
  split_space (t +:+ String " " s) = t :: split_space s.
Proof.
  unfold no_blank. induction t as [|c t IH]; [done|].
  cbn [re_search]. intros [Hc Ht]%orb_false_iff.
  change (String c t +:+ String " " s) with (String c (t +:+ String " " s)).
  cbn [split_space]. by rewrite Hc, (IH Ht).
Qed.

(** Splitting on single spaces undoes the join of a non-empty sequence of
    tokens that hold no space. *)
Lemma split_join_space (toks : list string) :
  toks <> [] -> Forall no_blank toks ->
  split_space (join_space toks) = toks.
Proof.
  intros Hne Hall. induction Hall as [|t ts Ht Hts IH]; [done|].
  destruct ts as [|t' ts].
  - cbn. by apply split_space_no_blank.
  - cbn [join_space]. rewrite split_space_app by done.
    f_equal. by apply IH.
Qed.

Lemma to_lower_not_blank (c : ascii) :
  is_nonword_or_digit c = false -> is_blank (to_lower c) = false.
Proof. destruct c as [[] [] [] [] [] [] [] []]; by vm_compute. Qed.

(** A cleaned token holds no space. *)
Lemma clean_no_blank (t : string) : no_blank (clean t).
Proof.
  unfold no_blank, clean. induction t as [|c t IH]; [done|].
  cbn [re_delete].
  destruct (is_nonword_or_digit c) eqn:Hc; [done|]. cbn [lower re_search].
  by rewrite to_lower_not_blank, IH.
Qed.

Lemma word_not_blank (c : ascii) :
  is_nonword c = false -> is_blank c = false.
Proof. destruct c as [[] [] [] [] [] [] [] []]; by vm_compute. Qed.

Lemma cons_head_no_blank (c : ascii) (l : list string) :
  is_blank c = false -> Forall no_blank l -> Forall no_blank (cons_head c l).
Proof.
  intros Hc Hl. destruct Hl as [|t ts Ht Hts]; cbn [cons_head].
  - constructor; [|done]. unfold no_blank. cbn [re_search]. by rewrite Hc.
  - constructor; [|done]. unfold no_blank in *. cbn [re_search].
    by rewrite Hc, Ht.
Qed.

(** The pieces of [re.split('\W+', s)] hold no space. *)
Lemma re_split_nonword_no_blank (s : string) :
  Forall no_blank (re_split_nonword s).
Proof.
  induction s as [|c s IH]; cbn [re_split_nonword].
  - by constructor.
  - destruct (is_nonword c) eqn:Hc.
    + destruct (starts_with_sep is_nonword s); [done|]. by constructor.
    + apply cons_head_no_blank; [by apply word_not_blank | done].
Qed.

Section ShapeFacts.

Variable decode_utf8 : string -> option string.
Variable word_tokenize : string -> list string.
Variable pos_tag : list string -> option string -> result (list (string * string)).
Variable lemmatize : string -> wn_pos -> string.
Variable stem : string -> string.
Variable stopwords : gset string.

Local Abbreviation before_shape' :=
  (before_shape decode_utf8 word_tokenize pos_tag lemmatize stem stopwords).
Local Abbreviation stream_record' :=
  (stream_record decode_utf8 word_tokenize pos_tag lemmatize stem stopwords).
Local Abbreviation flat_tokens' :=
  (flat_tokens word_tokenize lemmatize stem stopwords).

Lemma stage_shape_join cfg (r : record) toks :
  mv cfg = false ->
  textfield cfg <> "pos_tag" ->
  r !! textfield cfg = Some (VList (IStr <$> toks)) ->
  exists r',
    stage_shape cfg r = Ok r'
    /\ r' !! textfield cfg = Some (VStr (join_space toks)).
Proof.
  intros Hmv Htag Hr. unfold stage_shape. rewrite Hmv. cbn [negb].
  rewrite (getitem_lookup _ _ _ Hr), bind_Ok.
  assert (Hjoin : py_join (VList (IStr <$> toks)) = Ok (join_space toks)).
  { unfold py_join. cbn [py_iter]. by rewrite all_str_fmap. }
  rewrite Hjoin, bind_Ok.
  eexists. split; [done|]. unfold try_or.
  match goal with |- context [match ?m with _ => _ end] => destruct m eqn:Hm end.
  - apply bind_Ok_inv in Hm as (v & _ & Hm).
    apply bind_Ok_inv in Hm as (j & _ & Hm). injection Hm as <-.
    rewrite lookup_insert_ne by done. by rewrite lookup_insert_eq.
  - by rewrite lookup_insert_eq.
Qed.

(** Outside lemma-with-POS mode the pipeline only gets as far as output
    shaping on a record whose text field holds a string. *)
Lemma before_shape_flat_inv cfg (r r6 : record) :
  is_lemma_pos cfg = false ->
  before_shape' cfg r = Ok r6 ->
  exists text, r !! textfield cfg = Some (VStr text).
Proof.
  intros Hpos H. unfold before_shape, through_lemma_pos in H.
  apply bind_Ok_inv in H as (r3 & H & _).
  apply bind_Ok_inv in H as (r0 & H0 & H).
  apply bind_Ok_inv in H as (r1 & H1 & _).
  assert (Htext : forall (r' : record) (e : error)
                         (k : string -> result record) x,
             (getitem r' (textfield cfg) ≫= fun v => as_text e v ≫= k) = Ok x ->
             exists text, r' !! textfield cfg = Some (VStr text)).
  { intros r' e k x (v & Hv & Hk)%bind_Ok_inv.
    unfold getitem in Hv. destruct (r' !! textfield cfg) as [w|]; [|done].
    injection Hv as ->. destruct v as [t|l]; [|done]. by exists t. }
  unfold stage_urls in H0. destruct (remove_urls cfg).
  - eapply Htext. exact H0.
  - injection H0 as <-. unfold stage_tokenize in H1. rewrite Hpos in H1.
    cbn [orb] in H1.
    destruct (force_nltk_tokenize cfg);
      [|destruct (default_clean cfg || base_word cfg && base_is cfg "lemma")];
      (eapply Htext; exact H1).
Qed.

Lemma flat_tokens_no_blank cfg text :
  default_clean cfg = true ->
  base_word cfg = false ->
  base_type cfg <> "lemma_pos" ->
  Forall no_blank (flat_tokens' cfg text).
Proof.
  intros Hdc Hbw Hbt. unfold flat_tokens, flat_reduce, flat_clean, base_is.
  rewrite Hdc, Hbw. rewrite (bool_decide_eq_false_2 _ Hbt). cbn [andb negb].
  assert (Hclean : forall ts : list string, Forall no_blank (clean <$> ts)).
  { intros ts. apply Forall_fmap, Forall_forall. intros t _.
    apply clean_no_blank. }
  destruct (remove_stopwords cfg); [|apply Hclean].
  unfold not_stopword. apply Forall_forall. intros t Hin.
  apply list_elem_of_filter in Hin as [_ Hin].
  revert t Hin. apply Forall_forall, Hclean.
Qed.

Lemma not_stopword_Forall (P : string -> Prop) (ts : list string) :
  Forall P ts -> Forall P (not_stopword stopwords ts).
Proof.
  intros Hts. unfold not_stopword. apply Forall_forall. intros t Hin.
  apply list_elem_of_filter in Hin as [_ Hin].
  revert t Hin. by apply Forall_forall.
Qed.

Lemma fmap_no_blank (f : string -> string) (ts : list string) :
  (forall t, no_blank t -> no_blank (f t)) ->
  Forall no_blank ts -> Forall no_blank (f <$> ts).
Proof.
  intros Hf Hts. apply Forall_fmap. eapply Forall_impl; [exact Hts|].
  intros t Ht. by apply Hf.
Qed.

(** Outside lemma-with-POS mode, with [default_clean] on, the tokens that
    reach output shaping hold no space when the capabilities put none in. *)
Lemma flat_tokens_space_free cfg text :
  default_clean cfg = true ->
  is_lemma_pos cfg = false ->
  space_free word_tokenize lemmatize stem cfg ->
  Forall no_blank (flat_tokens' cfg text).
Proof.
  intros Hdc Hpos (Hlem & Hstem & Htok).
  assert (Hclean : forall ts : list string, Forall no_blank (clean <$> ts)).
  { intros ts. apply Forall_fmap, Forall_forall. intros t _.
    apply clean_no_blank. }
  assert (Hkept : forall (b : bool) ts,
             Forall no_blank ts ->
             Forall no_blank (if b then not_stopword stopwords ts else ts)).
  { intros [] ts Hts; [by apply not_stopword_Forall | done]. }
  unfold flat_tokens, flat_reduce, flat_clean, flat_tokenize.
  unfold is_lemma_pos in Hpos. rewrite Hdc. cbn [andb orb].
  destruct (base_word cfg) eqn:Hbw; cbn [andb] in Hpos.
  - rewrite Hpos. cbn [negb]. unfold base_is.
    case_bool_decide as Hl; [|case_bool_decide as Hs].
    + apply fmap_no_blank; [|by apply Hkept].
      intros t. apply Hlem; [done | by left].
    + apply fmap_no_blank; [|by apply Hkept]. by apply Hstem.
    + apply Hclean.
  - apply Hkept. unfold base_is. case_bool_decide as Hp; cbn [negb].
    + destruct (force_nltk_tokenize cfg) eqn:Hf.
      * by apply Htok.
      * apply re_split_nonword_no_blank.
    + apply Hclean.
Qed.

(** In lemma-with-POS mode, with [default_clean] on, the lemmas kept hold
    no space when the lemmatizer puts none in. *)
Lemma kept_no_blank cfg pairs :
  default_clean cfg = true ->
  (forall t p, no_blank t -> no_blank (lemmatize t p)) ->
  Forall no_blank (kept lemmatize (inline_filter stopwords cfg pairs)).*1.
Proof.
  intros Hdc Hlem. apply Forall_fmap, Forall_forall. intros p Hin.
  unfold kept in Hin. apply list_elem_of_filter in Hin as [_ Hin].
  apply list_elem_of_fmap in Hin as (q & -> & Hq).
  apply list_elem_of_fmap in Hq as (it & -> & Hit).
  assert (Hitem : exists t, it = IList (clean t.1) t.2).
  { unfold inline_filter, inline_clean_stop, inline_clean in Hit.
    rewrite Hdc in Hit. cbn [andb] in Hit.
    destruct (remove_stopwords cfg); cbn [negb] in Hit;
      apply list_elem_of_fmap in Hit as (t & -> & _); by exists t. }
  destruct Hitem as [t ->]. cbn. apply Hlem, clean_no_blank.
Qed.

Lemma before_shape_with_mv (b : bool) cfg (r : record) :
  before_shape' (with_mv b cfg) r = before_shape' cfg r.
Proof. by destruct cfg. Qed.

(** What reaches output shaping is a list of tokens, whatever the mode,
    as long as the text field is not named [pos_tag]; with [default_clean]
    on its tokens hold no space when the capabilities put none in. *)
Lemma before_shape_tokens cfg (r r6 : record) :
  textfield cfg <> "pos_tag" ->
  before_shape' cfg r = Ok r6 ->
  exists toks,
    r6 !! textfield cfg = Some (VList (IStr <$> toks))
    /\ (default_clean cfg = true ->
        space_free word_tokenize lemmatize stem cfg ->
        Forall no_blank toks).
Proof.
  intros Htag Hbefore. destruct (is_lemma_pos cfg) eqn:Hpos.
  - pose proof Hbefore as H. unfold before_shape in H.
    apply bind_Ok_inv in H as (r3 & H3 & _).
    destruct (through_pos_inv decode_utf8 word_tokenize pos_tag lemmatize
                stopwords cfg r r3 Hpos H3) as (text & u & pairs & Hr & Hu & Hp).
    destruct (decide (textfield cfg = "pos_tuple")) as [Htup|Htup].
    + unfold before_shape in Hbefore.
      rewrite (through_pos decode_utf8 word_tokenize pos_tag lemmatize
                 stopwords cfg r text u pairs Hpos Hr Hu Hp) in Hbefore.
      destruct (stage_lemma_pos_field_is_tuples lemmatize cfg
                  (<["pos_tuple" := VList (inline_filter stopwords cfg pairs)]>
                     (<[textfield cfg := VStr (url_stage cfg text)]> r))
                  Hpos Htup) as (r3' & Hrun & Hfield & _).
      rewrite Hrun, bind_Ok in Hbefore.
      rewrite (after_pos lemmatize stem stopwords cfg r3' Hpos) in Hbefore.
      injection Hbefore as <-. exists []. rewrite Htup. by split.
    + rewrite (before_shape_pos decode_utf8 word_tokenize pos_tag lemmatize
                 stem stopwords cfg r text u pairs) in Hbefore by done.
      injection Hbefore as <-.
      destruct (pos_result_lookups (textfield cfg)
                  (kept lemmatize (inline_filter stopwords cfg pairs))
                  (<["pos_tuple" := VList (inline_filter stopwords cfg pairs)]>
                     (<[textfield cfg := VStr (url_stage cfg text)]> r))
                  Htag Htup) as (Hf & _).
      eexists. split; [exact Hf|]. intros Hdc (Hlem & _).
      apply (kept_no_blank cfg pairs Hdc).
      destruct (is_lemma_pos_true cfg Hpos) as [Hbw Hbt].
      apply Hlem; [done|]. right. by apply bool_decide_eq_true in Hbt.
  - destruct (before_shape_flat_inv cfg r r6 Hpos Hbefore) as [text Htext].
    rewrite (before_shape_flat decode_utf8 word_tokenize pos_tag lemmatize
               stem stopwords cfg r text Hpos Htext) in Hbefore.
    injection Hbefore as <-. exists (flat_tokens' cfg text).
    split; [apply lookup_insert_eq|]. intros Hdc Hfree.
    by apply flat_tokens_space_free.
Qed.

(** C7 (as amended): with [mv] off and a text field not itself named
    [pos_tag], the yielded text field is the single string obtained by
    joining, with single spaces, the token sequence that reached output
    shaping -- the sequence yielded with [mv] on.  Splitting that string on
    single spaces gives the sequence back whenever the sequence is not
    empty and no token holds a space.  With [default_clean] on the tokens
    hold no space, in every configuration, provided the lemmatizer and the
    stemmer -- and the tokenizer, where its tokens are not cleaned -- return
    a token without a space for a token without one ([space_free]); the
    proviso is void when [base_word] is off and [base_type] is not
    [lemma_pos], where the tokens are the cleaned tokens themselves.  The
    empty sequence is joined to the empty string, which splits into one
    empty token. *)
Theorem C7_join_and_split_back cfg (r r6 : record) :
  mv cfg = false ->
  textfield cfg <> "pos_tag" ->
  before_shape' cfg r = Ok r6 ->
  exists toks r',
    r6 !! textfield cfg = Some (VList (IStr <$> toks))
    /\ stream_record' (with_mv true cfg) r = Ok r6
    /\ stream_record' cfg r = Ok r'
    /\ r' !! textfield cfg = Some (VStr (join_space toks))
    /\ (toks <> [] -> Forall no_blank toks ->
        split_space (join_space toks) = toks)
    /\ (default_clean cfg = true ->
        space_free word_tokenize lemmatize stem cfg ->
        Forall no_blank toks
        /\ (toks <> [] -> split_space (join_space toks) = toks))
    /\ (default_clean cfg = true -> base_word cfg = false ->
        base_type cfg <> "lemma_pos" ->
        Forall no_blank toks
        /\ (toks <> [] -> split_space (join_space toks) = toks))
    /\ (toks = [] -> split_space (join_space toks) = [EmptyString]).
Proof.
  intros Hmv Htag Hbefore.
  destruct (before_shape_tokens cfg r r6 Htag Hbefore) as (toks & Hr6 & Hfree).
  destruct (stage_shape_join cfg r6 toks Hmv Htag Hr6) as (r' & Hshape & Hr').
  exists toks, r'. split; [done|]. split.
  { rewrite stream_record_mv by by destruct cfg.
    by rewrite before_shape_with_mv. }
  split.
  { unfold stream_record. by rewrite Hbefore, bind_Ok. }
  split; [done|]. split; [apply split_join_space|].
  split; [|split].
  - intros Hdc Hsf. pose proof (Hfree Hdc Hsf) as Hnb.
    split; [done|]. intros Hne. by apply split_join_space.
  - intros Hdc Hbw Hbt.
    assert (Hsf : space_free word_tokenize lemmatize stem cfg).
    { split; [|split].
      - intros Hbw'. by rewrite Hbw in Hbw'.
      - intros Hbw'. by rewrite Hbw in Hbw'.
      - by intros _ Hbt'. }
    pose proof (Hfree Hdc Hsf) as Hnb.
    split; [done|]. intros Hne. by apply split_join_space.
  - by intros ->.
Qed.

(** *** The frame *)

(** Output shaping rebinds the text field and [pos_tag] only. *)
Lemma stage_shape_keeps cfg (r r' : record) (k : string) :
  stage_shape cfg r = Ok r' ->
  k <> textfield cfg -> k <> "pos_tag" ->
  r' !! k = r !! k.
Proof.
  intros H Hk Hg. unfold stage_shape in H.
  destruct (mv cfg); cbn [negb] in H; [by injection H as <-|].
  apply bind_Ok_inv in H as (v & _ & H).
  apply bind_Ok_inv in H as (joined & _ & H). injection H as <-.
  unfold try_or.
  match goal with |- context [match ?m with _ => _ end] => destruct m eqn:Hm end.
  - apply bind_Ok_inv in Hm as (w & _ & Hm).
    apply bind_Ok_inv in Hm as (j & _ & Hm). injection Hm as <-.
    by rewrite !lookup_insert_ne by done.
  - by rewrite lookup_insert_ne by done.
Qed.

(** C8 (as amended): on every record on which the pipeline returns, the
    yielded record differs from the input at most in the text field, in
    [pos_tag] and in [pos_tuple]; every other field keeps its value, and
    no field is removed.  In lemma-with-POS mode the tagged pairs are
    left in the yielded record, under [pos_tuple]: with a text field not
    itself named [pos_tuple], the field holds the (lemma, tag) tuples of
    the pairs whose lemma is not empty, in order, or, when no pair has
    such a lemma, the pairs that the inline filter of stage 1 stored
    there.  With a text field named [pos_tuple] the field is the text
    field, left empty by line 210. *)
Theorem C8_only_three_fields_change cfg (r r' : record) :
  stream_record' cfg r = Ok r' ->
  (forall k, k <> textfield cfg -> k <> "pos_tag" -> k <> "pos_tuple" ->
             r' !! k = r !! k)
  /\ (forall k, is_Some (r !! k) -> is_Some (r' !! k))
  /\ (is_lemma_pos cfg = true -> is_Some (r' !! "pos_tuple"))
  /\ (is_lemma_pos cfg = true ->
      exists text u pairs,
        r !! textfield cfg = Some (VStr text)
        /\ decode_utf8 (url_stage cfg text) = Some u
        /\ pos_tag (word_tokenize u) (pos_tagset cfg) = Ok pairs
        /\ (textfield cfg <> "pos_tuple" ->
            r' !! "pos_tuple"
            = Some (VList
                      (match kept lemmatize
                               (inline_filter stopwords cfg pairs) with
                       | [] => inline_filter stopwords cfg pairs
                       | K => tuples_of K
                       end)))
        /\ (textfield cfg = "pos_tuple" ->
            r' !! "pos_tuple"
            = Some (if mv cfg then VList [] else VStr EmptyString))).
Proof.
  intros H.
  destruct (stream_record_framing decode_utf8 word_tokenize pos_tag
              lemmatize stem stopwords cfg r r' H) as [Hsame Hkeep].
  split; [done|]. split; [done|].
  assert (Hcontent : is_lemma_pos cfg = true ->
    exists text u pairs,
      r !! textfield cfg = Some (VStr text)
      /\ decode_utf8 (url_stage cfg text) = Some u
      /\ pos_tag (word_tokenize u) (pos_tagset cfg) = Ok pairs
      /\ (textfield cfg <> "pos_tuple" ->
          r' !! "pos_tuple"
          = Some (VList
                    (match kept lemmatize
                             (inline_filter stopwords cfg pairs) with
                     | [] => inline_filter stopwords cfg pairs
                     | K => tuples_of K
                     end)))
      /\ (textfield cfg = "pos_tuple" ->
          r' !! "pos_tuple"
          = Some (if mv cfg then VList [] else VStr EmptyString))).
  { intros Hpos. unfold stream_record in H.
    apply bind_Ok_inv in H as (r6 & Hbefore & Hshape).
    unfold before_shape in Hbefore.
    apply bind_Ok_inv in Hbefore as (r3 & H3 & Hrest).
    rewrite (after_pos lemmatize stem stopwords cfg r3 Hpos) in Hrest.
    injection Hrest as <-.
    destruct (through_pos_inv decode_utf8 word_tokenize pos_tag lemmatize
                stopwords cfg r r3 Hpos H3) as (text & u & pairs & Hr & Hu & Hp).
    exists text, u, pairs. split; [done|]. split; [done|]. split; [done|].
    rewrite (through_pos decode_utf8 word_tokenize pos_tag lemmatize
               stopwords cfg r text u pairs Hpos Hr Hu Hp) in H3.
    split.
    - intros Htup.
      destruct (stage_lemma_pos_tuples lemmatize cfg
                  (<["pos_tuple" := VList (inline_filter stopwords cfg pairs)]>
                     (<[textfield cfg := VStr (url_stage cfg text)]> r))
                  (inline_filter stopwords cfg pairs) Hpos Htup
                  (lookup_insert_eq _ _ _)
                  (inline_filter_pairs stopwords cfg pairs))
        as (r3' & Hrun & Hlook).
      rewrite Hrun in H3. injection H3 as <-.
      rewrite (stage_shape_keeps cfg r3' r' "pos_tuple" Hshape) by done.
      exact Hlook.
    - intros Htup.
      destruct (stage_lemma_pos_field_is_tuples lemmatize cfg
                  (<["pos_tuple" := VList (inline_filter stopwords cfg pairs)]>
                     (<[textfield cfg := VStr (url_stage cfg text)]> r))
                  Hpos Htup) as (r3' & Hrun & Hfield & _).
      rewrite Hrun in H3. injection H3 as <-.
      destruct (mv cfg) eqn:Hmv.
      + unfold stage_shape in Hshape. rewrite Hmv in Hshape.
        cbn [negb] in Hshape. by injection Hshape as <-.
      + destruct (stage_shape_join cfg r3' [] Hmv) as (r'' & Hs & Hr'').
        { by rewrite Htup. }
        { by rewrite Htup. }
        rewrite Hs in Hshape. injection Hshape as <-.
        by rewrite Htup in Hr''. }
  split; [|done].
  intros Hpos. destruct (Hcontent Hpos) as (text & u & pairs & _ & _ & _ & Hne & Heq).
  destruct (decide (textfield cfg = "pos_tuple")) as [Htup|Htup].
  - by rewrite (Heq Htup).
  - by rewrite (Hne Htup).
Qed.

End ShapeFacts.

(** ** URL removal *)

Section UrlFacts.

Local Abbreviation stop := is_url_stop.
Local Abbreviation url_char := (fun c : ascii => negb (is_url_stop c)).

Lemma sub_go_skip (k : nat) (s : list ascii) :
  sub_go stop k s = sub_go stop 0 (drop k s).
Proof.
  revert k. induction s as [|c r IH]; intros [|k]; try done.
  cbn [sub_go drop]. apply IH.
Qed.

Lemma strip_prefix_Some (p s r : list ascii) :
  strip_prefix p s = Some r -> s = p ++ r.
Proof.
  revert s. induction p as [|a p IH]; intros s H; cbn in H.
  - by injection H as ->.
  - destruct s as [|b s]; [done|].
    destruct (Ascii.eqb_spec a b) as [->|]; [|done].
    cbn. f_equal. by apply IH.
Qed.

Lemma span_take (cls : ascii -> bool) (s : list ascii) :
  Forall (fun c => cls c = true) (take (span cls s) s).
Proof.
  induction s as [|c r IH]; cbn; [done|].
  destruct (cls c) eqn:Hc; cbn; [by constructor | done].
Qed.

Lemma span_drop (cls : ascii -> bool) (s : list ascii) :
  drop (span cls s) s = []
  \/ exists c r, drop (span cls s) s = c :: r /\ cls c = false.
Proof.
  induction s as [|c r IH]; cbn; [by left|].
  destruct (cls c) eqn:Hc; cbn; [done|]. right. by exists c, r.
Qed.

(** The text at a match: the scheme, one URL character at least, and the
    length matched is that of the scheme plus the whole run of URL
    characters after it. *)
Lemma match_at_Some (s : list ascii) (n : nat) :
  match_at stop s = Some n ->
  exists scheme body,
    (scheme = ["h"; "t"; "t"; "p"; ":"; "/"; "/"]%char
     \/ scheme = ["h"; "t"; "t"; "p"; "s"; ":"; "/"; "/"]%char)
    /\ s = scheme ++ body
    /\ span url_char body <> 0
    /\ n = length scheme + span url_char body.
Proof.
  unfold match_at, match_tail. intros H.
  destruct (strip_prefix _ s) as [r|] eqn:Hr; [|done].
  apply strip_prefix_Some in Hr as ->.
  destruct r as [|c r'].
  { cbn in H. done. }
  destruct (Ascii.eqb_spec c "s") as [->|Hc].
  - destruct (strip_prefix _ r') as [body|] eqn:Hb.
    + apply strip_prefix_Some in Hb as ->.
      destruct (span url_char body) as [|k] eqn:Hk.
      * cbn in H. done.
      * injection H as <-. eexists _, body. split; [by right|].
        rewrite Hk. cbn. done.
    + cbn in H. done.
  - destruct (strip_prefix _ (c :: r')) as [body|] eqn:Hb; [|done].
    apply strip_prefix_Some in Hb. rewrite Hb.
    destruct (span url_char body) as [|k] eqn:Hk; [done|].
    injection H as <-. eexists _, body. split; [by left|].
    rewrite Hk. cbn. done.
Qed.

Lemma match_at_scheme (scheme body : list ascii) :
  scheme = ["h"; "t"; "t"; "p"; ":"; "/"; "/"]%char
  \/ scheme = ["h"; "t"; "t"; "p"; "s"; ":"; "/"; "/"]%char ->
  span url_char body <> 0 ->
  match_at stop (scheme ++ body) = Some (length scheme + span url_char body).
Proof.
  intros [-> | ->] Hb; unfold match_at, match_tail; cbn;
    by destruct (span url_char body).
Qed.

Lemma scheme_url_chars (scheme : list ascii) :
  scheme = ["h"; "t"; "t"; "p"; ":"; "/"; "/"]%char
  \/ scheme = ["h"; "t"; "t"; "p"; "s"; ":"; "/"; "/"]%char ->
  Forall (fun c => url_char c = true) scheme.
Proof. intros [-> | ->]; repeat constructor. Qed.

(** A match is made of URL characters only and is maximal. *)
Lemma match_at_url_chars (s : list ascii) (n : nat) :
  match_at stop s = Some n ->
  0 < n
  /\ Forall (fun c => url_char c = true) (take n s)
  /\ (drop n s = [] \/ exists c r, drop n s = c :: r /\ stop c = true).
Proof.
  intros (scheme & body & Hs & -> & Hb & ->)%match_at_Some.
  split; [lia|]. split.
  - rewrite take_app_add'  by done. apply Forall_app. split.
    + by apply scheme_url_chars.
    + apply span_take.
  - rewrite drop_app_add' by done.
    destruct (span_drop url_char body) as [?|(c & r & ? & Hc)]; [by left|].
    right. exists c, r. split; [done|]. by apply negb_false_iff.
Qed.

Lemma match_at_stop_first (c : ascii) (r : list ascii) :
  stop c = true -> match_at stop (c :: r) = None.
Proof.
  intros Hc. destruct (match_at stop (c :: r)) as [n|] eqn:H; [|done].
  apply match_at_url_chars in H as (Hn & Hall & _).
  destruct n as [|n]; [lia|]. cbn in Hall.
  apply Forall_cons in Hall as [Hall _]. by rewrite Hc in Hall.
Qed.

(** A run of URL characters at the start of the output was at the start
    of the input as well. *)
Lemma output_run_from_input (s w : list ascii) :
  Forall (fun c => url_char c = true) w ->
  w `prefix_of` sub_go stop 0 s ->
  w `prefix_of` s.
Proof.
  intros Hw. revert w Hw. induction s as [|c r IH]; intros w Hw Hpre.
  - done.
  - assert (Hcopy : w `prefix_of` c :: sub_go stop 0 r -> w `prefix_of` c :: r).
    { intros Hp. destruct w as [|a w]; [apply prefix_nil|].
      apply prefix_cons_inv_1 in Hp as Ha.
      apply prefix_cons_inv_2 in Hp. subst a.
      apply prefix_cons, IH; [|done]. by apply Forall_cons in Hw as [_ ?]. }
    cbn [sub_go] in Hpre.
    destruct (match_at stop (c :: r)) as [[|n]|] eqn:Hm; [by apply Hcopy| |by apply Hcopy].
    rewrite sub_go_skip in Hpre.
    apply match_at_url_chars in Hm as (_ & _ & Hend). cbn [drop] in Hend.
    destruct Hend as [Hend | (a & r' & Hend & Ha)]; rewrite Hend in Hpre.
    + apply prefix_nil_inv in Hpre as ->. apply prefix_nil.
    + cbn [sub_go] in Hpre. rewrite (match_at_stop_first a r' Ha) in Hpre.
      destruct w as [|b w]; [apply prefix_nil|].
      apply prefix_cons_inv_1 in Hpre. subst b.
      apply Forall_cons in Hw as [Hb _]. by rewrite Ha in Hb.
Qed.

(** A match in the output behind a copied character is a match in the
    input. *)
Lemma match_in_output (c : ascii) (r : list ascii) :
  match_at stop (c :: sub_go stop 0 r) <> None ->
  match_at stop (c :: r) <> None.
Proof.
  intros Hm. destruct (match_at stop (c :: sub_go stop 0 r)) as [n|] eqn:H; [|done].
  clear Hm. apply match_at_Some in H as (scheme & body & Hs & Heq & Hb & _).
  destruct body as [|x body]; [done|].
  cbn in Hb. destruct (url_char x) eqn:Hx; [|done].
  assert (exists sc, scheme = c :: sc) as [sc ->].
  { destruct Hs as [-> | ->]; injection Heq as -> _; eauto. }
  injection Heq as Heq.
  assert (Hpre : (sc ++ [x]) `prefix_of` r).
  { apply output_run_from_input.
    - apply Forall_app. split.
      + pose proof (scheme_url_chars _ Hs) as Hall.
        by apply Forall_cons in Hall as [_ ?].
      + by repeat constructor.
    - rewrite Heq. exists body. by rewrite <- app_assoc. }
  destruct Hpre as [rest ->].
  replace (c :: (sc ++ [x]) ++ rest) with ((c :: sc) ++ x :: rest)
    by (cbn; by rewrite <- app_assoc).
  rewrite match_at_scheme; [done|done|]. cbn. by rewrite Hx.
Qed.

Lemma match_at_not_zero (s : list ascii) : match_at stop s <> Some 0.
Proof. intros H. apply match_at_url_chars in H as [? _]. lia. Qed.

(** The pattern matches nowhere in the output. *)
Lemma sub_go_no_match (s : list ascii) (k i : nat) :
  match_at stop (drop i (sub_go stop k s)) = None.
Proof.
  revert k i. induction s as [|c r IH]; intros k i.
  - cbn. by rewrite drop_nil.
  - destruct k as [|k]; [|apply IH]. cbn [sub_go].
    destruct (match_at stop (c :: r)) as [[|n]|] eqn:Hm.
    + by apply match_at_not_zero in Hm.
    + apply IH.
    + destruct i as [|i]; [|apply IH]. cbn [drop].
      destruct (match_at stop (c :: sub_go stop 0 r)) eqn:Hout; [|done].
      exfalso. apply (match_in_output c r); [|done]. by rewrite Hout.
Qed.

(** Deletion only: the output is a subsequence of the input. *)
Lemma sub_go_sublist (s : list ascii) (k : nat) :
  sub_go stop k s `sublist_of` s.
Proof.
  revert k. induction s as [|c r IH]; intros k; [done|].
  destruct k as [|k]; cbn [sub_go].
  - destruct (match_at stop (c :: r)) as [[|n]|].
    + by apply sublist_skip.
    + by apply sublist_cons.
    + by apply sublist_skip.
  - by apply sublist_cons.
Qed.

Lemma sub_go_match (s : list ascii) (n : nat) :
  match_at stop s = Some n ->
  sub_go stop 0 s = sub_go stop 0 (drop n s).
Proof.
  intros Hm. destruct s as [|c r].
  { cbn in Hm. done. }
  destruct n as [|n]; [by apply match_at_not_zero in Hm|].
  cbn [sub_go drop]. rewrite Hm. apply sub_go_skip.
Qed.

Lemma span_run (cls : ascii -> bool) (run rest : list ascii) :
  Forall (fun c => cls c = true) run ->
  (rest = [] \/ exists c r, rest = c :: r /\ cls c = false) ->
  span cls (run ++ rest) = length run.
Proof.
  intros Hrun Hrest. induction Hrun as [|c run Hc Hrun IH]; cbn.
  - destruct Hrest as [-> | (c & r & -> & Hc)]; [done|]. cbn. by rewrite Hc.
  - by rewrite Hc, IH.
Qed.

Lemma match_at_iff_url_starts (s : list ascii) :
  match_at stop s <> None <-> url_starts s.
Proof.
  split.
  - intros Hm. destruct (match_at stop s) as [n|] eqn:H; [|done].
    apply match_at_Some in H as (scheme & body & Hs & -> & Hb & _).
    destruct body as [|c rest]; [done|]. cbn in Hb.
    destruct (stop c) eqn:Hc; [done|]. by exists scheme, c, rest.
  - intros (scheme & c & rest & Hs & Hc & ->).
    rewrite match_at_scheme; [done|done|]. cbn. by rewrite Hc.
Qed.

(** The characters in front of the first URL are copied. *)
Lemma sub_go_copy_prefix (pre s : list ascii) :
  (forall i, i < length pre -> ~ url_starts (drop i (pre ++ s))) ->
  sub_go stop 0 (pre ++ s) = pre ++ sub_go stop 0 s.
Proof.
  induction pre as [|c pre IH]; intros Hno; [done|].
  cbn [app sub_go].
  destruct (match_at stop (c :: pre ++ s)) as [n|] eqn:Hm.
  { exfalso. apply (Hno 0); [cbn; lia|]. apply match_at_iff_url_starts.
    cbn [drop app]. by rewrite Hm. }
  f_equal. apply IH. intros i Hi. apply (Hno (S i)). cbn. lia.
Qed.

(** A URL at the start of the text is deleted whole. *)
Lemma sub_go_url_deleted (scheme run rest : list ascii) :
  is_scheme scheme ->
  run <> [] ->
  Forall (fun c => stop c = false) run ->
  (rest = [] \/ exists c r, rest = c :: r /\ stop c = true) ->
  sub_go stop 0 (scheme ++ run ++ rest) = sub_go stop 0 rest.
Proof.
  intros Hs Hne Hrun Hrest.
  assert (Hspan : span url_char (run ++ rest) = length run).
  { apply span_run.
    - eapply Forall_impl; [exact Hrun|]. intros c Hc. cbn. by rewrite Hc.
    - destruct Hrest as [-> | (c & r & -> & Hc)]; [by left|].
      right. exists c, r. split; [done|]. cbn. by rewrite Hc. }
  rewrite (sub_go_match (scheme ++ run ++ rest) (length scheme + length run)).
  - rewrite drop_app_add' by done. by rewrite drop_app_length.
  - rewrite match_at_scheme; [by rewrite Hspan|done|].
    rewrite Hspan. by destruct run.
Qed.

(** C3 (as amended): the pattern of [f_remove_urls] ends a URL at the
    next white space, [<] or backspace character (the class is
    [[^\b\s<]]).  The pattern matches exactly where [http://] or
    [https://] is followed by at least one URL character.  The first such
    URL of a text is deleted whole -- the scheme and the run of URL
    characters up to (excluding) the next stop character or the end of the
    text -- with nothing put in its place, the characters in front of it
    are copied, and the rest of the text is treated in the same way.  The
    output is a subsequence of the input and the pattern matches nowhere in
    it; with [remove_urls] on, this is the text that reaches
    tokenization. *)
Theorem C3_urls_deleted_up_to_stop (text : string) :
  ~ has_url is_url_stop (f_remove_urls text)
  /\ list_ascii_of_string (f_remove_urls text)
       `sublist_of` list_ascii_of_string text
  /\ (forall s n,
        match_at is_url_stop s = Some n ->
        sub_go is_url_stop 0 s = sub_go is_url_stop 0 (drop n s)
        /\ 0 < n
        /\ Forall (fun c => is_url_stop c = false) (take n s)
        /\ (drop n s = []
            \/ exists c r, drop n s = c :: r /\ is_url_stop c = true))
  /\ (forall c r,
        match_at is_url_stop (c :: r) = None ->
        sub_go is_url_stop 0 (c :: r) = c :: sub_go is_url_stop 0 r)
  /\ (forall c,
        is_url_stop c = true <->
        is_backspace c = true \/ is_space c = true \/ is_lt c = true)
  /\ (forall cfg (r : record),
        remove_urls cfg = true ->
        r !! textfield cfg = Some (VStr text) ->
        stage_urls cfg r
        = Ok (<[textfield cfg := VStr (f_remove_urls text)]> r))
  /\ (forall s, match_at is_url_stop s <> None <-> url_starts s)
  /\ (forall pre scheme run rest,
        is_scheme scheme ->
        run <> [] ->
        Forall (fun c => is_url_stop c = false) run ->
        (rest = [] \/ exists c r, rest = c :: r /\ is_url_stop c = true) ->
        (forall i, i < length pre ->
                   ~ url_starts (drop i (pre ++ scheme ++ run ++ rest))) ->
        f_remove_urls (string_of_list_ascii (pre ++ scheme ++ run ++ rest))
        = string_of_list_ascii
            (pre ++ list_ascii_of_string
                      (f_remove_urls (string_of_list_ascii rest)))).
Proof.
  split; [|split; [|split; [|split; [|split; [|split; [|split]]]]]].
  - intros [i Hi]. apply Hi. unfold f_remove_urls, re_sub_url.
    rewrite list_ascii_of_string_of_list_ascii. apply sub_go_no_match.
  - unfold f_remove_urls, re_sub_url.
    rewrite list_ascii_of_string_of_list_ascii. apply sub_go_sublist.
  - intros s n Hm. split; [by apply sub_go_match|].
    apply match_at_url_chars in Hm as (Hn & Hall & Hend).
    split; [done|]. split; [|done].
    eapply Forall_impl; [exact Hall|]. intros c Hc. cbn in Hc.
    by apply negb_true_iff.
  - intros c r Hm. cbn [sub_go]. by rewrite Hm.
  - intros c. unfold is_url_stop. rewrite !orb_true_iff. by split; intros [[?|?]|?] || intros [?|[?|?]]; auto.
  - intros cfg r Hru Hr. unfold stage_urls. rewrite Hru.
    by rewrite (getitem_lookup _ _ _ Hr).
  - apply match_at_iff_url_starts.
  - intros pre scheme run rest Hs Hne Hrun Hrest Hno.
    unfold f_remove_urls, re_sub_url.
    rewrite !list_ascii_of_string_of_list_ascii.
    rewrite sub_go_copy_prefix by done.
    by rewrite sub_go_url_deleted.
Qed.

End UrlFacts.

(** ** The option front end *)

Section FrontFacts.

Variable valid_fieldname : string -> bool.
Variable truth_value : string -> option bool.
Variable decode_utf8 : string -> option string.
Variable word_tokenize : string -> list string.
Variable pos_tag : list string -> option string -> result (list (string * string)).
Variable lemmatize : string -> wn_pos -> string.
Variable stem : string -> string.
Variable stopwords : gset string.
Variable setup_logging : option error.

Local Abbreviation assign' := (assign valid_fieldname truth_value).
Local Abbreviation assign_all' := (assign_all valid_fieldname truth_value).
Local Abbreviation parse_options' := (parse_options valid_fieldname truth_value).
Local Abbreviation run' :=
  (run valid_fieldname truth_value decode_utf8 word_tokenize pos_tag
       lemmatize stem stopwords setup_logging).








End FrontFacts.

(** * Further properties of the code *)

(** ** Cleaning: [re.sub(r'[\W\d]','',text).lower()] (lines 171, 182, 201) *)

Lemma to_lower_clean_char (c : ascii) :
  is_nonword_or_digit c = false -> is_clean_char (to_lower c) = true.
Proof. destruct c as [[] [] [] [] [] [] [] []]; by vm_compute. Qed.

Lemma clean_char_kept (c : ascii) :
  is_clean_char c = true -> is_nonword_or_digit c = false /\ to_lower c = c.
Proof. destruct c as [[] [] [] [] [] [] [] []]; by vm_compute. Qed.

Lemma clean_alphabet (t : string) : all_chars is_clean_char (clean t).
Proof.
  unfold all_chars, clean. induction t as [|c t IH]; [done|].
  cbn [re_delete]. destruct (is_nonword_or_digit c) eqn:Hc; [done|].
  cbn [lower re_search]. by rewrite to_lower_clean_char, IH.
Qed.

Lemma clean_fixed (t : string) : all_chars is_clean_char t -> clean t = t.
Proof.
  unfold all_chars, clean. induction t as [|c t IH]; [done|].
  cbn [re_search]. intros [Hc Ht]%orb_false_iff.
  apply negb_false_iff, clean_char_kept in Hc as [Hc Hl].
  cbn [re_delete]. rewrite Hc. cbn [lower]. by rewrite Hl, IH.
Qed.

Lemma clean_length (t : string) : String.length (clean t) <= String.length t.
Proof.
  unfold clean. induction t as [|c t IH]; [done|].
  cbn [re_delete]. destruct (is_nonword_or_digit c); cbn; lia.
Qed.

(** X1: cleaning is idempotent, and a token made of lowercase letters and
    underscores only is left as it is. *)
Theorem X1_clean_idempotent (t : string) :
  clean (clean t) = clean t
  /\ (all_chars is_clean_char t -> clean t = t).
Proof.
  split; [|apply clean_fixed]. apply clean_fixed, clean_alphabet.
Qed.

(** X2: a cleaned token holds nothing but the letters [a]-[z] and the
    underscore, and is never longer than the token it comes from. *)
Theorem X2_clean_alphabet_and_length (t : string) :
  all_chars is_clean_char (clean t)
  /\ String.length (clean t) <= String.length t.
Proof. split; [apply clean_alphabet | apply clean_length]. Qed.

(** X3: a token is cleaned to the empty string exactly when it holds no
    letter and no underscore, that is when every character is a non-word
    character or a digit. *)
Theorem X3_clean_empty_iff (t : string) :
  clean t = EmptyString <-> all_chars is_nonword_or_digit t.
Proof.
  unfold all_chars, clean. induction t as [|c t IH]; [done|].
  cbn [re_delete re_search].
  destruct (is_nonword_or_digit c) eqn:Hc; cbn [negb orb lower].
  - exact IH.
  - split; intros H; discriminate.
Qed.

(** ** Tokenization of the default path (lines 195 and 197) *)

Lemma concat_cons_head (c : ascii) (l : list string) :
  concat_all (cons_head c l) = String c (concat_all l).
Proof. by destruct l. Qed.

Lemma re_split_nonword_cons (s : string) :
  exists t ts, re_split_nonword s = t :: ts.
Proof.
  induction s as [|c r (t & ts & IH)]; [by eexists _, _|].
  cbn [re_split_nonword]. rewrite IH.
  destruct (is_nonword c); [destruct (starts_with_sep is_nonword r)|];
    by eexists _, _.
Qed.

Lemma all_chars_cons_head (cls : ascii -> bool) (c : ascii) (l : list string) :
  cls c = true -> Forall (all_chars cls) l ->
  Forall (all_chars cls) (cons_head c l).
Proof.
  intros Hc Hl. destruct Hl as [|t ts Ht Hts]; cbn.
  - repeat constructor. unfold all_chars. cbn. by rewrite Hc.
  - constructor; [|done]. unfold all_chars in *. cbn. by rewrite Hc, Ht.
Qed.

(** X4: splitting on runs of non-word characters always gives at least one
    piece, every piece is made of word characters only, and the pieces put
    together are the text with its non-word characters deleted: no word
    character is lost, moved or duplicated. *)
Theorem X4_re_split_nonword_pieces (s : string) :
  re_split_nonword s <> []
  /\ Forall (all_chars is_word) (re_split_nonword s)
  /\ concat_all (re_split_nonword s) = re_delete is_nonword s.
Proof.
  split; [|split].
  - by destruct (re_split_nonword_cons s) as (t & ts & ->).
  - induction s as [|c r IH]; [by repeat constructor|].
    cbn [re_split_nonword]. unfold is_nonword at 1.
    destruct (is_word c) eqn:Hc; cbn [negb].
    + by apply all_chars_cons_head.
    + destruct (starts_with_sep is_nonword r); [done|].
      by constructor.
  - induction s as [|c r IH]; [done|].
    cbn [re_split_nonword re_delete]. destruct (is_nonword c).
    + destruct (starts_with_sep is_nonword r); [done|]. by cbn.
    + by rewrite concat_cons_head, IH.
Qed.

Lemma re_split_nonword_sep_first (s : string) :
  starts_with_sep is_nonword s = true ->
  head (re_split_nonword s) = Some EmptyString.
Proof.
  induction s as [|c r IH]; [done|]. cbn [starts_with_sep re_split_nonword].
  intros ->. destruct (starts_with_sep is_nonword r); [by apply IH | done].
Qed.

(** X5: the first piece is empty exactly when the text is empty or starts
    with a non-word character; such empty pieces are tokens like any other
    (nothing in the default path drops them). *)
Theorem X5_re_split_nonword_leading_empty (s : string) :
  head (re_split_nonword s) = Some EmptyString
  <-> s = EmptyString \/ starts_with_sep is_nonword s = true.
Proof.
  split.
  - destruct s as [|c r]; [by left|]. right.
    cbn [starts_with_sep re_split_nonword] in *.
    destruct (is_nonword c); [done|].
    by destruct (re_split_nonword r).
  - intros [-> | Hs]; [done|]. by apply re_split_nonword_sep_first.
Qed.

(** [s.split()] *)

Lemma split_whitespace_pieces (s : string) :
  Forall (fun t => t <> EmptyString /\ all_chars (fun c => negb (is_space c)) t)
         (split_whitespace s).
Proof.
  induction s as [|c r IH]; [constructor|].
  cbn [split_whitespace]. destruct (is_space c) eqn:Hc; [done|].
  assert (Hone : (fun t => t <> EmptyString
                           /\ all_chars (fun c => negb (is_space c)) t)
                   (String c EmptyString)).
  { split; [done|]. unfold all_chars. cbn. by rewrite Hc. }
  destruct r as [|c' r']; [constructor; [exact Hone | constructor]|].
  destruct (is_space c') eqn:Hc'; [by constructor|].
  destruct IH as [|t ts [Ht Hall] Hts]; cbn [cons_head].
  - constructor; [exact Hone | constructor].
  - constructor; [|done]. split; [done|].
    unfold all_chars in *. cbn. by rewrite Hc, Hall.
Qed.

Lemma split_whitespace_concat (s : string) :
  concat_all (split_whitespace s) = re_delete is_space s.
Proof.
  induction s as [|c r IH]; [done|].
  cbn [split_whitespace re_delete]. destruct (is_space c); [done|].
  destruct r as [|c' r']; [done|].
  destruct (is_space c') eqn:Hc'.
  - cbn [concat_all]. by rewrite IH.
  - by rewrite concat_cons_head, IH.
Qed.

(** X6: splitting on white space never gives an empty piece and never a
    piece holding white space; the pieces put together are the text with its
    white space deleted, and there is no piece at all exactly when the text
    is white space only. *)
Theorem X6_split_whitespace_pieces (s : string) :
  Forall (fun t => t <> EmptyString
                   /\ all_chars (fun c => negb (is_space c)) t)
         (split_whitespace s)
  /\ concat_all (split_whitespace s) = re_delete is_space s
  /\ (split_whitespace s = [] <-> all_chars is_space s).
Proof.
  split; [apply split_whitespace_pieces|]. split; [apply split_whitespace_concat|].
  unfold all_chars. induction s as [|c r IH]; [done|].
  cbn [split_whitespace re_search]. destruct (is_space c) eqn:Hc; cbn [negb orb].
  - exact IH.
  - split; [|done]. destruct r as [|c' r']; [done|].
    destruct (is_space c'); [done|].
    by destruct (split_whitespace (String c' r')).
Qed.

(** ** URL removal: [f_remove_urls] (lines 141-146) *)

Lemma sub_go_no_url (s : list ascii) :
  (forall i, match_at is_url_stop (drop i s) = None) ->
  sub_go is_url_stop 0 s = s.
Proof.
  induction s as [|c r IH]; intros Hno; [done|].
  cbn [sub_go]. pose proof (Hno 0) as H0. cbn [drop] in H0. rewrite H0.
  f_equal. apply IH.
  intros i. apply (Hno (S i)).
Qed.

(** X7: URL removal is idempotent, and a text in which the pattern matches
    nowhere is returned as it is. *)
Theorem X7_remove_urls_idempotent (text : string) :
  f_remove_urls (f_remove_urls text) = f_remove_urls text
  /\ (~ has_url is_url_stop text -> f_remove_urls text = text).
Proof.
  assert (Hid : forall t, ~ has_url is_url_stop t -> f_remove_urls t = t).
  { intros t Hno. unfold f_remove_urls, re_sub_url.
    rewrite sub_go_no_url; [apply string_of_list_ascii_of_string|].
    intros i. destruct (match_at is_url_stop _) eqn:Hm; [|done].
    exfalso. apply Hno. exists i. by rewrite Hm. }
  split; [|apply Hid]. apply Hid.
  intros [i Hi]. apply Hi. unfold f_remove_urls, re_sub_url.
  rewrite list_ascii_of_string_of_list_ascii. apply sub_go_no_match.
Qed.

Lemma filter_url_chars (P : ascii -> Prop) `{!forall c, Decision (P c)}
    (s : list ascii) :
  (forall c, P c -> is_url_stop c = true) ->
  Forall (fun c => negb (is_url_stop c) = true) s ->
  filter P s = [].
Proof.
  intros HP Hs. induction Hs as [|c r Hc Hr IH]; [done|].
  rewrite filter_cons_False; [done|].
  intros Hp. apply HP in Hp. by rewrite Hp in Hc.
Qed.

Lemma sub_go_keeps_stops (n : nat) (s : list ascii) :
  length s <= n ->
  filter (fun c => is_url_stop c = true) (sub_go is_url_stop 0 s)
  = filter (fun c => is_url_stop c = true) s.
Proof.
  revert s. induction n as [|n IH]; intros s Hlen.
  { destruct s; [done|]. cbn in Hlen. lia. }
  destruct s as [|c r]; [done|]. cbn in Hlen.
  assert (Hcopy : filter (fun c => is_url_stop c = true)
                         (c :: sub_go is_url_stop 0 r)
                  = filter (fun c => is_url_stop c = true) (c :: r)).
  { rewrite !filter_cons. rewrite IH by lia. done. }
  cbn [sub_go].
  destruct (match_at is_url_stop (c :: r)) as [[|m]|] eqn:Hm; [done| |done].
  rewrite sub_go_skip.
  apply match_at_url_chars in Hm as (_ & Hall & _).
  rewrite IH by (rewrite length_drop; lia).
  replace (filter (fun c => is_url_stop c = true) (c :: r))
    with (filter (fun c => is_url_stop c = true)
                 (take (S m) (c :: r) ++ drop m r))
    by (f_equal; apply (take_drop (S m) (c :: r))).
  rewrite filter_app.
  rewrite (filter_url_chars _ (take (S m) (c :: r))); [done|done|done].
Qed.

(** X8: URL removal deletes URL characters only: the white space, [<] and
    backspace characters of the text are all kept, in their order, so the
    text never gains or loses a word boundary of that kind; and the result
    is never longer than the text. *)
Theorem X8_remove_urls_keeps_separators (text : string) :
  filter (fun c => is_url_stop c = true)
         (list_ascii_of_string (f_remove_urls text))
  = filter (fun c => is_url_stop c = true) (list_ascii_of_string text)
  /\ length (list_ascii_of_string (f_remove_urls text))
     <= length (list_ascii_of_string text).
Proof.
  unfold f_remove_urls, re_sub_url.
  rewrite list_ascii_of_string_of_list_ascii. split.
  - by apply (sub_go_keeps_stops (length (list_ascii_of_string text))).
  - apply sublist_length, sub_go_sublist.
Qed.

(** ** The pipeline as a whole *)

Section MoreFacts.

Variable decode_utf8 : string -> option string.
Variable word_tokenize : string -> list string.
Variable pos_tag : list string -> option string -> result (list (string * string)).
Variable lemmatize : string -> wn_pos -> string.
Variable stem : string -> string.
Variable stopwords : gset string.

Local Abbreviation stage_tokenize' :=
  (stage_tokenize decode_utf8 word_tokenize pos_tag stopwords).
Local Abbreviation through_lemma_pos' :=
  (through_lemma_pos decode_utf8 word_tokenize pos_tag lemmatize stopwords).
Local Abbreviation before_shape' :=
  (before_shape decode_utf8 word_tokenize pos_tag lemmatize stem stopwords).
Local Abbreviation stream_record' :=
  (stream_record decode_utf8 word_tokenize pos_tag lemmatize stem stopwords).
Local Abbreviation flat_tokens' :=
  (flat_tokens word_tokenize lemmatize stem stopwords).
Local Abbreviation kept' := (kept lemmatize).

(** X9: a record that lacks the text field raises [KeyError], whatever the
    options: every path of stages 0 and 1 reads [record[self.textfield]]
    first. *)
Theorem X9_missing_text_field_raises cfg (r : record) :
  r !! textfield cfg = None ->
  stream_record decode_utf8 word_tokenize pos_tag
      lemmatize stem stopwords cfg r = Raise KeyError.
Proof.
  intros Hr.
  assert (Hget : getitem r (textfield cfg) = Raise KeyError).
  { unfold getitem. by rewrite Hr. }
  unfold stream_record, before_shape, through_lemma_pos, stage_urls,
    stage_tokenize.
  destruct (remove_urls cfg); [by rewrite Hget|]. rewrite bind_Ok.
  destruct (is_lemma_pos cfg); cbn [orb]; [by rewrite Hget|].
  destruct (force_nltk_tokenize cfg); [by rewrite Hget|].
  destruct (default_clean cfg || base_word cfg && base_is cfg "lemma");
    by rewrite Hget.
Qed.

(** *** Options that do not matter *)

(** X11: in lemma-with-POS mode [force_nltk_tokenize] has no effect: the
    part-of-speech branch is taken either way. *)
Theorem X11_force_ignored_in_lemma_pos cfg (b : bool) (r : record) :
  is_lemma_pos cfg = true ->
  stream_record' (with_force b cfg) r = stream_record' cfg r.
Proof.
  intros Hpos. destruct cfg as [tf dc ru rs bw bt m force ts].
  unfold with_force, stream_record, before_shape, through_lemma_pos,
    stage_tokenize, is_lemma_pos, base_is in *.
  cbn [textfield default_clean remove_urls remove_stopwords base_word
       base_type mv force_nltk_tokenize pos_tagset] in *.
  rewrite Hpos. reflexivity.
Qed.

(** X12: outside lemma-with-POS mode [pos_tagset] has no effect: the tagger
    is never called. *)
Theorem X12_tagset_ignored_outside_lemma_pos cfg (ts' : option string)
    (r : record) :
  is_lemma_pos cfg = false ->
  stream_record' (with_tagset ts' cfg) r = stream_record' cfg r.
Proof.
  intros Hpos. destruct cfg as [tf dc ru rs bw bt m force ts].
  unfold with_tagset, stream_record, before_shape, through_lemma_pos,
    stage_tokenize, is_lemma_pos, base_is in *.
  cbn [textfield default_clean remove_urls remove_stopwords base_word
       base_type mv force_nltk_tokenize pos_tagset] in *.
  rewrite Hpos. reflexivity.
Qed.

(** *** The shape of the text field *)

Lemma step_keeps_field_bound cfg (st st' : lstate) (it : item) :
  lemma_pos_step lemmatize cfg st it = Ok st' ->
  bound_obj (ls_rec st) (textfield cfg) ->
  bound_obj (ls_rec st') (textfield cfg).
Proof.
  unfold lemma_pos_step. intros H [o Ho].
  apply bind_Ok_inv in H as (t0 & _ & H).
  apply bind_Ok_inv in H as (t1 & _ & H).
  case_bool_decide.
  - injection H as <-. by exists o.
  - unfold append_field in H. rewrite Ho in H. rewrite bind_Ok in H.
    injection H as <-. cbn [ls_rec]. apply bound_obj_rebound. by exists o.
Qed.

Lemma loop_keeps_field_bound cfg its (st st' : lstate) :
  for_each (lemma_pos_step lemmatize cfg) st its = Ok st' ->
  bound_obj (ls_rec st) (textfield cfg) ->
  bound_obj (ls_rec st') (textfield cfg).
Proof.
  revert st. induction its as [|it its IH]; intros st H Hb; cbn in H.
  - by injection H as <-.
  - apply bind_Ok_inv in H as (st1 & H1 & H).
    eapply IH; [exact H|]. by eapply step_keeps_field_bound.
Qed.

Lemma stage_lemma_pos_list cfg (r r3 : record) :
  is_lemma_pos cfg = true ->
  stage_lemma_pos lemmatize cfg r = Ok r3 ->
  exists l, r3 !! textfield cfg = Some (VList l).
Proof.
  intros Hpos H. unfold stage_lemma_pos in H. rewrite Hpos in H.
  apply bind_Ok_inv in H as (its & _ & H).
  apply bind_Ok_inv in H as (st & Hloop & H). injection H as <-.
  apply loop_keeps_field_bound in Hloop as [o Ho].
  - exists (hget (ls_heap st) o). by rewrite lookup_fmap, Ho.
  - unfold loop_init, bound_obj. cbn [ls_rec]. rewrite !lookup_insert.
    repeat case_decide; try done; eauto.
Qed.

(** X13: whenever the pipeline returns, the text field of the yielded
    record is a list when [mv] is on and a single string when [mv] is off,
    whatever the other options and whatever the name of the text field. *)
Theorem X13_text_field_shape cfg (r r' : record) :
  stream_record decode_utf8 word_tokenize pos_tag
      lemmatize stem stopwords cfg r = Ok r' ->
  if mv cfg
  then exists l, r' !! textfield cfg = Some (VList l)
  else exists s, r' !! textfield cfg = Some (VStr s).
Proof.
  intros H. unfold stream_record in H.
  apply bind_Ok_inv in H as (r6 & Hbefore & Hshape).
  unfold stage_shape in Hshape. destruct (mv cfg); cbn [negb] in Hshape.
  - injection Hshape as <-.
    destruct (is_lemma_pos cfg) eqn:Hpos.
    + unfold before_shape in Hbefore.
      apply bind_Ok_inv in Hbefore as (r3 & H3 & Hrest).
      rewrite (after_pos lemmatize stem stopwords cfg r3 Hpos) in Hrest.
      injection Hrest as <-.
      unfold through_lemma_pos in H3.
      apply bind_Ok_inv in H3 as (r0 & _ & H3).
      apply bind_Ok_inv in H3 as (r1 & _ & H3).
      apply bind_Ok_inv in H3 as (r2 & _ & H3).
      by apply (stage_lemma_pos_list cfg r2).
    + destruct (before_shape_flat_inv decode_utf8 word_tokenize pos_tag
                  lemmatize stem stopwords cfg r r6 Hpos Hbefore)
        as [text Htext].
      rewrite (before_shape_flat decode_utf8 word_tokenize pos_tag lemmatize
                 stem stopwords cfg r text Hpos Htext) in Hbefore.
      injection Hbefore as <-. eexists. apply lookup_insert_eq.
  - apply bind_Ok_inv in Hshape as (v & _ & Hshape).
    apply bind_Ok_inv in Hshape as (joined & _ & Hshape).
    injection Hshape as <-. unfold try_or.
    match goal with |- context [match ?m with _ => _ end] => destruct m eqn:Hm end.
    + apply bind_Ok_inv in Hm as (w & _ & Hm).
      apply bind_Ok_inv in Hm as (j & _ & Hm). injection Hm as <-.
      rewrite lookup_insert. case_decide; [by eexists|].
      rewrite lookup_insert_eq. by eexists.
    + rewrite lookup_insert_eq. by eexists.
Qed.

Lemma py_join_str (s : string) : py_join (VStr s) = Ok (join_space (chars s)).
Proof. unfold py_join. cbn [py_iter]. by rewrite all_str_fmap. Qed.

(** X14: outside lemma-with-POS mode, with [mv] off and a text field not
    itself named [pos_tag], line 271 also joins
    whatever the record already holds under [pos_tag]: a string there is
    joined character by character, so that a space is put between every two
    of its characters; a record without that field is left without it. *)
Theorem X14_existing_pos_tag_is_joined cfg (r : record) text :
  is_lemma_pos cfg = false ->
  mv cfg = false ->
  textfield cfg <> "pos_tag" ->
  r !! textfield cfg = Some (VStr text) ->
  exists r',
    stream_record' cfg r = Ok r'
    /\ r' !! textfield cfg = Some (VStr (join_space (flat_tokens' cfg text)))
    /\ (forall s, r !! "pos_tag" = Some (VStr s) ->
                  r' !! "pos_tag" = Some (VStr (join_space (chars s))))
    /\ (r !! "pos_tag" = None -> r' !! "pos_tag" = None).
Proof.
  intros Hpos Hmv Htag Hr. unfold stream_record.
  rewrite (before_shape_flat decode_utf8 word_tokenize pos_tag lemmatize
             stem stopwords cfg r text Hpos Hr), bind_Ok.
  unfold stage_shape. rewrite Hmv. cbn [negb].
  rewrite getitem_insert, bind_Ok.
  assert (Hjoin : py_join (VList (IStr <$> flat_tokens' cfg text))
                  = Ok (join_space (flat_tokens' cfg text))).
  { unfold py_join. cbn [py_iter]. by rewrite all_str_fmap. }
  rewrite Hjoin, bind_Ok, insert_insert_eq.
  eexists. split; [done|].
  unfold getitem. rewrite lookup_insert_ne by done.
  destruct (r !! "pos_tag") as [[s|l]|] eqn:Hp; cbn [of_option].
  - rewrite bind_Ok, py_join_str, bind_Ok. cbn [try_or].
    rewrite lookup_insert_ne by done. rewrite lookup_insert_eq.
    split; [done|]. rewrite lookup_insert_eq. split; [|done].
    by intros ? [= <-].
  - rewrite bind_Ok. unfold try_or.
    match goal with |- context [match ?m with _ => _ end] => destruct m eqn:Hm end.
    + apply bind_Ok_inv in Hm as (j & _ & Hm). injection Hm as <-.
      rewrite lookup_insert_ne by done. rewrite lookup_insert_eq.
      split; [done|]. split; [done|done].
    + rewrite lookup_insert_eq. split; [done|]. split; [done|done].
  - cbn [try_or mbind result_bind]. rewrite lookup_insert_eq.
    split; [done|]. rewrite lookup_insert_ne by done. by rewrite Hp.
Qed.

(** X15: with [default_clean] on, [base_word] off and a [base_type] other
    than [lemma_pos], every token that reaches output shaping is made of the
    letters [a]-[z] and the underscore only. *)
Theorem X15_clean_tokens_alphabet cfg (r : record) text :
  default_clean cfg = true ->
  base_word cfg = false ->
  base_type cfg <> "lemma_pos" ->
  r !! textfield cfg = Some (VStr text) ->
  exists toks,
    before_shape' cfg r = Ok (<[textfield cfg := VList (IStr <$> toks)]> r)
    /\ Forall (all_chars is_clean_char) toks.
Proof.
  intros Hdc Hbw Hbt Hr.
  assert (Hpos : is_lemma_pos cfg = false).
  { unfold is_lemma_pos. by rewrite Hbw. }
  exists (flat_tokens' cfg text). split.
  { by apply before_shape_flat. }
  unfold flat_tokens, flat_reduce, flat_clean, base_is.
  rewrite Hdc, Hbw. rewrite (bool_decide_eq_false_2 _ Hbt). cbn [andb negb].
  assert (Hclean : forall ts : list string,
             Forall (all_chars is_clean_char) (clean <$> ts)).
  { intros ts. apply Forall_fmap, Forall_forall. intros t _.
    apply clean_alphabet. }
  destruct (remove_stopwords cfg); [|apply Hclean].
  unfold not_stopword. apply Forall_forall. intros t Hin.
  apply list_elem_of_filter in Hin as [_ Hin].
  revert t Hin. apply Forall_forall, Hclean.
Qed.

(** *** Lemma-with-POS mode, end to end *)

(** X16: in lemma-with-POS mode, with a text field named neither
    [pos_tag] nor [pos_tuple], line 222 sits under the [if keep_text]:
    [pos_tuple] is rebound to the (lemma, tag) tuples of the kept pairs only
    when at least one pair is kept; when every lemma is empty (or no pair
    survived stage 1) it still holds the pairs of stage 1, while the text
    field and [pos_tag] are empty lists. *)
Theorem X16_pos_tuple_rebound_only_if_kept cfg (r : record) text u pairs :
  is_lemma_pos cfg = true ->
  textfield cfg <> "pos_tag" ->
  textfield cfg <> "pos_tuple" ->
  r !! textfield cfg = Some (VStr text) ->
  decode_utf8 (url_stage cfg text) = Some u ->
  pos_tag (word_tokenize u) (pos_tagset cfg) = Ok pairs ->
  exists r6,
    before_shape' cfg r = Ok r6
    /\ r6 !! "pos_tuple"
       = Some (VList (match kept' (inline_filter stopwords cfg pairs) with
                      | [] => inline_filter stopwords cfg pairs
                      | K => tuples_of K
                      end))
    /\ (kept' (inline_filter stopwords cfg pairs) = [] ->
        r6 !! textfield cfg = Some (VList [])
        /\ r6 !! "pos_tag" = Some (VList [])).
Proof.
  intros Hpos Htag Htup Hr Hu Hp. eexists. split.
  { by apply (before_shape_pos decode_utf8 word_tokenize pos_tag lemmatize
         stem stopwords cfg r text u pairs). }
  destruct (pos_result_lookups (textfield cfg)
              (kept' (inline_filter stopwords cfg pairs))
              (<["pos_tuple" := VList (inline_filter stopwords cfg pairs)]>
                 (<[textfield cfg := VStr (url_stage cfg text)]> r))
              Htag Htup) as (Hf & Hg & Ht).
  split.
  - rewrite Ht. destruct (kept' _); [apply lookup_insert_eq | done].
  - intros HK. rewrite Hf, Hg, HK. done.
Qed.

Lemma stage_shape_both cfg (r : record) a b :
  mv cfg = false ->
  textfield cfg <> "pos_tag" ->
  r !! textfield cfg = Some (VList (IStr <$> a)) ->
  r !! "pos_tag" = Some (VList (IStr <$> b)) ->
  stage_shape cfg r =
    Ok (<["pos_tag" := VStr (join_space b)]>
          (<[textfield cfg := VStr (join_space a)]> r)).
Proof.
  intros Hmv Htag Ha Hb. unfold stage_shape. rewrite Hmv. cbn [negb].
  assert (Hjoin : forall ts, py_join (VList (IStr <$> ts)) = Ok (join_space ts)).
  { intros ts. unfold py_join. cbn [py_iter]. by rewrite all_str_fmap. }
  rewrite (getitem_lookup _ _ _ Ha), bind_Ok, Hjoin, bind_Ok.
  unfold getitem. rewrite lookup_insert_ne by done. rewrite Hb.
  cbn [of_option]. by rewrite bind_Ok, Hjoin, bind_Ok.
Qed.

(** X17: in lemma-with-POS mode with [mv] off and a text field named
    neither [pos_tag] nor [pos_tuple], both the text field and
    [pos_tag] are yielded as single strings: the kept lemmas joined with
    single spaces, and their tags joined with single spaces. *)
Theorem X17_lemma_pos_joined cfg (r : record) text u pairs :
  is_lemma_pos cfg = true ->
  mv cfg = false ->
  textfield cfg <> "pos_tag" ->
  textfield cfg <> "pos_tuple" ->
  r !! textfield cfg = Some (VStr text) ->
  decode_utf8 (url_stage cfg text) = Some u ->
  pos_tag (word_tokenize u) (pos_tagset cfg) = Ok pairs ->
  exists r',
    stream_record' cfg r = Ok r'
    /\ r' !! textfield cfg
       = Some (VStr (join_space (kept' (inline_filter stopwords cfg pairs)).*1))
    /\ r' !! "pos_tag"
       = Some (VStr (join_space (kept' (inline_filter stopwords cfg pairs)).*2)).
Proof.
  intros Hpos Hmv Htag Htup Hr Hu Hp. unfold stream_record.
  rewrite (before_shape_pos decode_utf8 word_tokenize pos_tag lemmatize
             stem stopwords cfg r text u pairs) by done. rewrite bind_Ok.
  destruct (pos_result_lookups (textfield cfg)
              (kept' (inline_filter stopwords cfg pairs))
              (<["pos_tuple" := VList (inline_filter stopwords cfg pairs)]>
                 (<[textfield cfg := VStr (url_stage cfg text)]> r))
              Htag Htup) as (Hf & Hg & _).
  rewrite (stage_shape_both cfg _ _ _ Hmv Htag Hf Hg).
  eexists. split; [done|]. rewrite lookup_insert_ne by done.
  by rewrite !lookup_insert_eq.
Qed.

(** X18: in lemma-with-POS mode a text field that is itself named
    [pos_tuple] is emptied by line 210 before the loop of line 212 reads it:
    whatever the text, the stage returns with [pos_tuple] and [pos_tag] both
    empty lists. *)
Theorem X18_text_field_named_pos_tuple cfg (r : record) text u pairs :
  is_lemma_pos cfg = true ->
  textfield cfg = "pos_tuple" ->
  r !! textfield cfg = Some (VStr text) ->
  decode_utf8 (url_stage cfg text) = Some u ->
  pos_tag (word_tokenize u) (pos_tagset cfg) = Ok pairs ->
  exists r3,
    through_lemma_pos' cfg r = Ok r3
    /\ r3 !! "pos_tuple" = Some (VList [])
    /\ r3 !! "pos_tag" = Some (VList []).
Proof.
  intros Hpos Htup Hr Hu Hp.
  rewrite (through_pos decode_utf8 word_tokenize pos_tag lemmatize stopwords
             cfg r text u pairs Hpos Hr Hu Hp).
  unfold stage_lemma_pos. rewrite Hpos.
  unfold loop_items, loop_init. cbn [ls_rec ls_heap]. rewrite Htup.
  rewrite lookup_insert_ne by done. rewrite lookup_insert_eq.
  cbn [hget h_field]. rewrite bind_Ok. cbn [for_each].
  rewrite bind_Ok. cbn [ls_rec ls_heap].
  eexists. split; [done|].
  rewrite !lookup_fmap, lookup_insert_eq.
  rewrite lookup_insert_ne by done. by rewrite lookup_insert_eq.
Qed.

(** X19: with [base_word] off and [remove_stopwords] on, no token that
    reaches output shaping is a member of the stopword set, whatever the
    tokenizer and whether or not the tokens were cleaned. *)
Theorem X19_no_stopword_without_base_word cfg (r : record) text :
  base_word cfg = false ->
  remove_stopwords cfg = true ->
  r !! textfield cfg = Some (VStr text) ->
  exists toks,
    before_shape' cfg r = Ok (<[textfield cfg := VList (IStr <$> toks)]> r)
    /\ Forall (fun t => t ∉ stopwords) toks.
Proof.
  intros Hbw Hrs Hr.
  assert (Hpos : is_lemma_pos cfg = false).
  { unfold is_lemma_pos. by rewrite Hbw. }
  exists (flat_tokens' cfg text). split.
  { by apply before_shape_flat. }
  unfold flat_tokens, flat_reduce. rewrite Hbw, Hrs.
  unfold not_stopword. apply Forall_forall. intros t Hin.
  by apply list_elem_of_filter in Hin as [? _].
Qed.

End MoreFacts.
(** ** The theorems above at concrete records *)

Ltac by_eval := vm_compute; first [reflexivity | discriminate | congruence].

(** A decidable proposition settled by evaluating its decision procedure. *)
Ltac by_decide :=
  match goal with
  | |- ?P => apply (bool_decide_eq_true_1 P); vm_compute; reflexivity
  end.

Lemma C4_reduce_after_stopword_filter_witness :
  before_shape Toy.decode_utf8 Toy.word_tokenize Toy.pos_tag Toy.lemmatize
    Toy.stem Toy.stopwords Toy.dflt {[ "text" := VStr "the cat" ]}
  = Ok (<["text" := VList [IStr "cat"]]> {[ "text" := VStr "the cat" ]}).
Proof.
  refine (proj1 (C4_reduce_after_stopword_filter
     Toy.decode_utf8 Toy.word_tokenize Toy.pos_tag Toy.lemmatize Toy.stem
     Toy.stopwords Toy.dflt {[ "text" := VStr "the cat" ]} "the cat" _ _ _)).
  - reflexivity.
  - left. reflexivity.
  - by_eval.
Defined.

Lemma C5_stopword_stage_exact_witness :
  exists out,
    stage_stopwords Toy.stopwords
      (Config "text" true true true false "lemma" true false None)
      {[ "text" := VList (IStr <$> ["the"; "cat"; "the"]) ]}
    = Ok (<["text" := VList (IStr <$> out)]>
            {[ "text" := VList (IStr <$> ["the"; "cat"; "the"]) ]})
    /\ "cat" ∈ out /\ "the" ∉ out.
Proof.
  pose proof (C5_stopword_stage_exact
     Toy.stopwords
     (Config "text" true true true false "lemma" true false None)
     {[ "text" := VList (IStr <$> ["the"; "cat"; "the"]) ]}
     ["the"; "cat"; "the"]) as H.
  destruct H as [H _]; [by_eval|].
  destruct H as (out & Hout & Hmem & _); [reflexivity|reflexivity|].
  exists out. split; [exact Hout|]. split.
  - apply Hmem. split; by_decide.
  - intros Hin. apply Hmem in Hin as [_ Hn]. apply Hn. by_decide.
Defined.

Lemma C10_unknown_base_type_passes_tokens_witness :
  before_shape Toy.decode_utf8 Toy.word_tokenize Toy.pos_tag Toy.lemmatize
    Toy.stem Toy.stopwords
    (Config "text" true true true true "lemmatize" true false None)
    {[ "text" := VStr "The cat" ]}
  = Ok (<["text" := VList [IStr "the"; IStr "cat"]]>
          {[ "text" := VStr "The cat" ]}).
Proof.
  refine (proj1 (C10_unknown_base_type_passes_tokens
     Toy.decode_utf8 Toy.word_tokenize Toy.pos_tag Toy.lemmatize Toy.stem
     Toy.stopwords
     (Config "text" true true true true "lemmatize" true false None)
     {[ "text" := VStr "The cat" ]} "The cat" _ _ _ _ _)).
  - reflexivity.
  - discriminate.
  - discriminate.
  - discriminate.
  - by_eval.
Defined.

Lemma C1_inline_filter_gated_by_default_clean_witness :
  exists stored,
    stage_tokenize Toy.decode_utf8 Toy.word_tokenize Toy.pos_tag Toy.stopwords
      pos_cfg {[ "text" := VStr "the cat 42 n't Dog" ]}
    = Ok (<["pos_tuple" := VList stored]> {[ "text" := VStr "the cat 42 n't Dog" ]})
    /\ stored = [IList "cat" "NN"; IList "" "CD"; IList "dog" "NN"].
Proof.
  destruct (C1_inline_filter_gated_by_default_clean
              Toy.decode_utf8 Toy.word_tokenize Toy.pos_tag Toy.stopwords
              pos_cfg {[ "text" := VStr "the cat 42 n't Dog" ]}
              "the cat 42 n't Dog" "the cat 42 n't Dog"
              [("the", "DT"); ("cat", "NN"); ("42", "CD"); ("n't", "RB");
               ("Dog", "NN")])
    as (stored & Hstage & Hboth & _).
  - reflexivity.
  - by_eval.
  - reflexivity.
  - by_eval.
  - exists stored. split; [exact Hstage|].
    rewrite (Hboth eq_refl eq_refl). by_eval.
Defined.

(** C1 as stated fails twice.  With [default_clean] off and
    [remove_stopwords] on, branch 1a fires and stores the tagged pairs
    unfiltered: the stopword [the] stays.  With both on, the token [42]
    cleans to the empty string and its pair is kept, with an empty token. *)
Lemma C1_counterexample :
  let off := Config "text" false true true true "lemma_pos" true false None in
  stage_tokenize Toy.decode_utf8 Toy.word_tokenize Toy.pos_tag Toy.stopwords
    off {[ "text" := VStr "the cat" ]}
  = Ok (<["pos_tuple" := VList [ITuple "the" "DT"; ITuple "cat" "NN"]]>
          {[ "text" := VStr "the cat" ]})
  /\ tokens_of (inline_filter Toy.stopwords off [("the", "DT"); ("cat", "NN")])
     = ["the"; "cat"]
  /\ tokens_of (spec_inline_filter Toy.stopwords off [("the", "DT"); ("cat", "NN")])
     = ["cat"]
  /\ inline_filter Toy.stopwords pos_cfg [("42", "CD")] = [IList "" "CD"]
  /\ spec_inline_filter Toy.stopwords pos_cfg [("42", "CD")] = []
  /\ inline_filter Toy.stopwords pos_cfg [("42", "CD")]
     <> spec_inline_filter Toy.stopwords pos_cfg [("42", "CD")].
Proof.
  cbv zeta. repeat split; by_eval.
Qed.

Lemma C3_urls_deleted_up_to_stop_witness :
  stage_urls Toy.dflt {[ "text" := VStr "see http://x.co/a<b> now" ]}
  = Ok (<["text" := VStr (f_remove_urls "see http://x.co/a<b> now")]>
          {[ "text" := VStr "see http://x.co/a<b> now" ]})
  /\ f_remove_urls "see http://x.co/a<b> now" = "see <b> now"
  /\ f_remove_urls
       (string_of_list_ascii
          (list_ascii_of_string "see "
           ++ list_ascii_of_string "http://"
           ++ list_ascii_of_string "x.co/a"
           ++ list_ascii_of_string "<b> now"))
     = string_of_list_ascii
         (list_ascii_of_string "see "
          ++ list_ascii_of_string
               (f_remove_urls
                  (string_of_list_ascii (list_ascii_of_string "<b> now")))).
Proof.
  destruct (C3_urls_deleted_up_to_stop "see http://x.co/a<b> now")
    as (_ & _ & _ & _ & _ & Hstage & Hstarts & Hdel).
  split; [|split].
  - apply Hstage; [reflexivity | by_eval].
  - by_eval.
  - apply Hdel.
    + by left.
    + discriminate.
    + repeat constructor.
    + right. exists "<"%char, (list_ascii_of_string "b> now"). by split.
    + intros i Hi Hu. apply Hstarts in Hu. apply Hu.
      cbn in Hi. do 4 (destruct i as [|i]; [by_eval|]). lia.
Defined.

(** C3 as stated fails on a backspace: the URL ends there, and the text after
    it stays, where the claim has it deleted up to the next white space or
    [<]. *)
Lemma C3_counterexample :
  let text := "http://a" +:+ String "008" "b c" in
  f_remove_urls text = String "008" "b c"
  /\ spec_remove_urls text = " c"
  /\ f_remove_urls text <> spec_remove_urls text.
Proof.
  cbv zeta. repeat split; by_eval.
Qed.

Lemma C6_lemma_pos_fields_parallel_witness :
  exists r3 toks tags,
    through_lemma_pos Toy.decode_utf8 Toy.word_tokenize Toy.pos_tag
      Toy.lemmatize Toy.stopwords pos_cfg
      {[ "text" := VStr "the cat 42 n't Dog" ]} = Ok r3
    /\ r3 !! "text" = Some (VList toks)
    /\ r3 !! "pos_tag" = Some (VList tags)
    /\ length toks = length tags
    /\ toks = [IStr "cat"; IStr "dog"]
    /\ tags = [IStr "NN"; IStr "NN"].
Proof.
  destruct (C6_lemma_pos_fields_parallel
              Toy.decode_utf8 Toy.word_tokenize Toy.pos_tag Toy.lemmatize
              Toy.stem Toy.stopwords
              pos_cfg {[ "text" := VStr "the cat 42 n't Dog" ]}
              "the cat 42 n't Dog" "the cat 42 n't Dog"
              [("the", "DT"); ("cat", "NN"); ("42", "CD"); ("n't", "RB");
               ("Dog", "NN")])
    as (r3 & toks & tags & Hrun & Htoks & Htags & Hlen & Hpar & _).
  - reflexivity.
  - by_eval.
  - reflexivity.
  - by_eval.
  - exists r3, toks, tags.
    destruct Hpar as (Ht & Hg & _); [discriminate|discriminate|].
    repeat split; assumption.
Defined.

(** C6 as stated fails for a text field named [pos_tag] or [pos_tuple]:
    the loop of lines 206-222 appends lemmas and tags to the same list, or
    empties the list it iterates over.  With the text field named
    [pos_tag], the text [cat dog bird] gives the one list
    [NN dog NN bird NN]: the first lemma is lost and its tag is emitted.
    With the text field named [pos_tuple], every pair is dropped although
    no lemma is empty. *)
Lemma C6_counterexample :
  let tag_cfg :=
    Config "pos_tag" true true true true "lemma_pos" true false None in
  let tuple_cfg :=
    Config "pos_tuple" true true true true "lemma_pos" true false None in
  let pairs := [("cat", "NN"); ("dog", "NN"); ("bird", "NN")] in
  Toy.pos_tag (Toy.word_tokenize "cat dog bird") None = Ok pairs
  /\ kept Toy.lemmatize (inline_filter Toy.stopwords tag_cfg pairs) = pairs
  /\ kept Toy.lemmatize (inline_filter Toy.stopwords tuple_cfg pairs) = pairs
  /\ (exists r3,
        through_lemma_pos Toy.decode_utf8 Toy.word_tokenize Toy.pos_tag
          Toy.lemmatize Toy.stopwords tag_cfg
          {[ "pos_tag" := VStr "cat dog bird" ]} = Ok r3
        /\ r3 !! "pos_tag"
           = Some (VList [IStr "NN"; IStr "dog"; IStr "NN"; IStr "bird";
                          IStr "NN"])
        /\ r3 !! textfield tag_cfg <> Some (VList (IStr <$> pairs.*1))
        /\ r3 !! "pos_tag" <> Some (VList (IStr <$> pairs.*2)))
  /\ (exists r3,
        through_lemma_pos Toy.decode_utf8 Toy.word_tokenize Toy.pos_tag
          Toy.lemmatize Toy.stopwords tuple_cfg
          {[ "pos_tuple" := VStr "cat dog bird" ]} = Ok r3
        /\ r3 !! textfield tuple_cfg = Some (VList [])
        /\ r3 !! "pos_tag" = Some (VList [])
        /\ r3 !! textfield tuple_cfg <> Some (VList (IStr <$> pairs.*1))
        /\ r3 !! "pos_tag" <> Some (VList (IStr <$> pairs.*2))).
Proof.
  cbv zeta. split; [by_eval|]. split; [by_eval|]. split; [by_eval|]. split.
  - eexists. split; [vm_compute; reflexivity|]. repeat split; by_eval.
  - eexists. split; [vm_compute; reflexivity|]. repeat split; by_eval.
Qed.

Lemma C7_join_and_split_back_witness :
  let cfg := Config "text" true true true true "lemma" false false None in
  exists r',
    stream_record Toy.decode_utf8 Toy.word_tokenize Toy.pos_tag Toy.lemmatize
      Toy.stem Toy.stopwords cfg
      {[ "text" := VStr "Cats are running FAST" ]} = Ok r'
    /\ r' !! "text" = Some (VStr "cats running fast")
    /\ split_space "cats running fast" = ["cats"; "running"; "fast"]
    /\ stream_record Toy.decode_utf8 Toy.word_tokenize Toy.pos_tag
         Toy.lemmatize Toy.stem Toy.stopwords (with_mv true cfg)
         {[ "text" := VStr "Cats are running FAST" ]}
       = Ok {[ "text" := VList [IStr "cats"; IStr "running"; IStr "fast"] ]}.
Proof.
  intros cfg.
  destruct (C7_join_and_split_back
              Toy.decode_utf8 Toy.word_tokenize Toy.pos_tag Toy.lemmatize
              Toy.stem Toy.stopwords cfg
              {[ "text" := VStr "Cats are running FAST" ]}
              {[ "text" := VList [IStr "cats"; IStr "running"; IStr "fast"] ]})
    as (toks & r' & Hr6 & Hmv & Hrun & Htext & _ & Hfree & _).
  - reflexivity.
  - discriminate.
  - by_eval.
  - assert (Htoks : toks = ["cats"; "running"; "fast"]).
    { change (textfield cfg) with "text" in Hr6.
      rewrite lookup_singleton_eq in Hr6.
      destruct toks as [|a [|b [|c [|d toks]]]]; try discriminate Hr6.
      by injection Hr6 as <- <- <-. }
    subst toks. exists r'. split; [exact Hrun|]. split; [exact Htext|].
    split; [|exact Hmv].
    destruct Hfree as [_ Hsplit].
    + reflexivity.
    + split; [|split].
      * intros _ _ t p Ht. exact Ht.
      * intros _ Hstem. discriminate Hstem.
      * intros Hbw. discriminate Hbw.
    + apply Hsplit. discriminate.
Defined.

(** C7 as stated fails when every token is removed: the empty sequence is
    joined to the empty string, which splits into one empty token.  It
    also fails for a text field named [pos_tag], which line 271 joins a
    second time, character by character. *)
Lemma C7_counterexample :
  let cfg := Config "text" true true true false "lemma" false false None in
  let tag_cfg :=
    Config "pos_tag" true true false false "lemma" false false None in
  before_shape Toy.decode_utf8 Toy.word_tokenize Toy.pos_tag Toy.lemmatize
    Toy.stem Toy.stopwords cfg {[ "text" := VStr "the" ]}
  = Ok {[ "text" := VList [] ]}
  /\ stream_record Toy.decode_utf8 Toy.word_tokenize Toy.pos_tag Toy.lemmatize
       Toy.stem Toy.stopwords cfg {[ "text" := VStr "the" ]}
     = Ok {[ "text" := VStr "" ]}
  /\ split_space "" = [""]
  /\ split_space "" <> []
  /\ before_shape Toy.decode_utf8 Toy.word_tokenize Toy.pos_tag Toy.lemmatize
       Toy.stem Toy.stopwords tag_cfg {[ "pos_tag" := VStr "cats run" ]}
     = Ok {[ "pos_tag" := VList [IStr "cats"; IStr "run"] ]}
  /\ stream_record Toy.decode_utf8 Toy.word_tokenize Toy.pos_tag Toy.lemmatize
       Toy.stem Toy.stopwords tag_cfg {[ "pos_tag" := VStr "cats run" ]}
     = Ok {[ "pos_tag" := VStr "c a t s   r u n" ]}
  /\ split_space "c a t s   r u n" <> ["cats"; "run"].
Proof.
  cbv zeta. repeat split; by_eval.
Qed.

Lemma C8_only_three_fields_change_witness :
  let r := {[ "text" := VStr "the cat"; "host" := VStr "h1" ]} : record in
  let r' := {[ "text" := VList [IStr "cat"]; "host" := VStr "h1";
               "pos_tuple" := VList [ITuple "cat" "NN"];
               "pos_tag" := VList [IStr "NN"] ]} : record in
  r' !! "host" = r !! "host"
  /\ is_Some (r' !! "pos_tuple")
  /\ exists pairs,
       Toy.pos_tag (Toy.word_tokenize "the cat") None = Ok pairs
       /\ r' !! "pos_tuple"
          = Some (VList
                    (match kept Toy.lemmatize
                             (inline_filter Toy.stopwords pos_cfg pairs) with
                     | [] => inline_filter Toy.stopwords pos_cfg pairs
                     | K => tuples_of K
                     end)).
Proof.
  intros r r'.
  destruct (C8_only_three_fields_change
              Toy.decode_utf8 Toy.word_tokenize Toy.pos_tag Toy.lemmatize
              Toy.stem Toy.stopwords pos_cfg r r')
    as (Hsame & _ & Htuple & Hcontent).
  - by_eval.
  - split; [|split].
    + apply Hsame; discriminate.
    + apply Htuple. reflexivity.
    + destruct Hcontent as (text & u & pairs & Hr & Hu & Hp & Hne & _);
        [reflexivity|].
      assert (Htext : text = "the cat").
      { change (textfield pos_cfg) with "text" in Hr. subst r.
        rewrite lookup_insert_eq in Hr. by injection Hr as <-. }
      subst text.
      assert (Hueq : u = "the cat").
      { vm_compute in Hu. by injection Hu as <-. }
      subst u. exists pairs. split; [exact Hp|]. apply Hne. discriminate.
Defined.

(** C8 as stated fails in lemma-with-POS mode: the yielded record holds the
    tagged pairs under [pos_tuple], a field that is neither the text field
    nor the tag field and that the input record did not have. *)
Lemma C8_counterexample :
  let r := {[ "text" := VStr "the cat"; "host" := VStr "h1" ]} : record in
  exists r',
    stream_record Toy.decode_utf8 Toy.word_tokenize Toy.pos_tag Toy.lemmatize
      Toy.stem Toy.stopwords pos_cfg r = Ok r'
    /\ r !! "pos_tuple" = None
    /\ r' !! "pos_tuple" = Some (VList [ITuple "cat" "NN"])
    /\ r' !! "pos_tuple" <> r !! "pos_tuple".
Proof.
  intros r. eexists. split; [by_eval|]. repeat split; by_eval.
Qed.



(** ** The further properties at concrete inputs *)

Lemma X1_clean_idempotent_witness : clean "dont_x" = "dont_x".
Proof.
  apply (proj2 (X1_clean_idempotent "dont_x")). by_eval.
Defined.

Lemma X7_remove_urls_idempotent_witness :
  f_remove_urls "a b" = "a b".
Proof.
  apply (proj2 (X7_remove_urls_idempotent "a b")).
  intros [i Hi]. apply Hi.
  do 3 (destruct i as [|i]; [reflexivity|]).
  by destruct i.
Defined.

Lemma X9_missing_text_field_raises_witness :
  stream_record Toy.decode_utf8 Toy.word_tokenize Toy.pos_tag Toy.lemmatize
    Toy.stem Toy.stopwords Toy.dflt {[ "body" := VStr "the cat" ]}
  = Raise KeyError.
Proof.
  apply X9_missing_text_field_raises. by_eval.
Defined.

Lemma X11_force_ignored_in_lemma_pos_witness :
  stream_record Toy.decode_utf8 Toy.word_tokenize Toy.pos_tag Toy.lemmatize
    Toy.stem Toy.stopwords (with_force true pos_cfg)
    {[ "text" := VStr "the cat" ]}
  = stream_record Toy.decode_utf8 Toy.word_tokenize Toy.pos_tag Toy.lemmatize
      Toy.stem Toy.stopwords pos_cfg {[ "text" := VStr "the cat" ]}.
Proof.
  apply X11_force_ignored_in_lemma_pos. reflexivity.
Defined.

Lemma X12_tagset_ignored_outside_lemma_pos_witness :
  stream_record Toy.decode_utf8 Toy.word_tokenize Toy.pos_tag Toy.lemmatize
    Toy.stem Toy.stopwords (with_tagset (Some "brown") Toy.dflt)
    {[ "text" := VStr "the cat" ]}
  = stream_record Toy.decode_utf8 Toy.word_tokenize Toy.pos_tag Toy.lemmatize
      Toy.stem Toy.stopwords Toy.dflt {[ "text" := VStr "the cat" ]}.
Proof.
  apply X12_tagset_ignored_outside_lemma_pos. reflexivity.
Defined.

Lemma X13_text_field_shape_witness :
  exists s,
    ({[ "text" := VStr "cats are running fast" ]} : record) !! "text"
    = Some (VStr s).
Proof.
  apply (X13_text_field_shape Toy.decode_utf8 Toy.word_tokenize Toy.pos_tag
           Toy.lemmatize Toy.stem Toy.stopwords joined_cfg
           {[ "text" := VStr "Cats are running FAST" ]}
           {[ "text" := VStr "cats are running fast" ]}).
  by_eval.
Defined.

Lemma X14_existing_pos_tag_is_joined_witness :
  exists r',
    stream_record Toy.decode_utf8 Toy.word_tokenize Toy.pos_tag Toy.lemmatize
      Toy.stem Toy.stopwords joined_cfg
      {[ "text" := VStr "Cats"; "pos_tag" := VStr "abc" ]} = Ok r'
    /\ r' !! "pos_tag" = Some (VStr "a b c").
Proof.
  destruct (X14_existing_pos_tag_is_joined
              Toy.decode_utf8 Toy.word_tokenize Toy.pos_tag Toy.lemmatize
              Toy.stem Toy.stopwords joined_cfg
              {[ "text" := VStr "Cats"; "pos_tag" := VStr "abc" ]} "Cats")
    as (r' & Hrun & _ & Hstr & _).
  - reflexivity.
  - reflexivity.
  - discriminate.
  - by_eval.
  - exists r'. split; [exact Hrun|]. apply (Hstr "abc"). by_eval.
Defined.

Lemma X15_clean_tokens_alphabet_witness :
  exists toks,
    before_shape Toy.decode_utf8 Toy.word_tokenize Toy.pos_tag Toy.lemmatize
      Toy.stem Toy.stopwords joined_cfg {[ "text" := VStr "Cats 42" ]}
    = Ok (<["text" := VList (IStr <$> toks)]> {[ "text" := VStr "Cats 42" ]})
    /\ Forall (all_chars is_clean_char) toks.
Proof.
  apply (X15_clean_tokens_alphabet
           Toy.decode_utf8 Toy.word_tokenize Toy.pos_tag Toy.lemmatize
           Toy.stem Toy.stopwords joined_cfg
           {[ "text" := VStr "Cats 42" ]} "Cats 42").
  - reflexivity.
  - reflexivity.
  - discriminate.
  - by_eval.
Defined.

Lemma X16_pos_tuple_rebound_only_if_kept_witness :
  exists r6,
    before_shape Toy.decode_utf8 Toy.word_tokenize Toy.pos_tag Toy.lemmatize
      Toy.stem Toy.stopwords pos_cfg {[ "text" := VStr "the 42" ]} = Ok r6
    /\ r6 !! "pos_tuple" = Some (VList [IList "" "CD"])
    /\ r6 !! "text" = Some (VList [])
    /\ r6 !! "pos_tag" = Some (VList []).
Proof.
  destruct (X16_pos_tuple_rebound_only_if_kept
              Toy.decode_utf8 Toy.word_tokenize Toy.pos_tag Toy.lemmatize
              Toy.stem Toy.stopwords pos_cfg {[ "text" := VStr "the 42" ]}
              "the 42" "the 42" [("the", "DT"); ("42", "CD")])
    as (r6 & Hrun & Htuple & Hempty).
  - reflexivity.
  - discriminate.
  - discriminate.
  - by_eval.
  - reflexivity.
  - by_eval.
  - exists r6. split; [exact Hrun|]. split; [exact Htuple|].
    apply Hempty. by_eval.
Defined.

Lemma X17_lemma_pos_joined_witness :
  exists r',
    stream_record Toy.decode_utf8 Toy.word_tokenize Toy.pos_tag Toy.lemmatize
      Toy.stem Toy.stopwords
      (Config "text" true true true true "lemma_pos" false false None)
      {[ "text" := VStr "the cat 42 n't Dog" ]} = Ok r'
    /\ r' !! "text" = Some (VStr "cat dog")
    /\ r' !! "pos_tag" = Some (VStr "NN NN").
Proof.
  apply (X17_lemma_pos_joined
           Toy.decode_utf8 Toy.word_tokenize Toy.pos_tag Toy.lemmatize
           Toy.stem Toy.stopwords
           (Config "text" true true true true "lemma_pos" false false None)
           {[ "text" := VStr "the cat 42 n't Dog" ]}
           "the cat 42 n't Dog" "the cat 42 n't Dog"
           [("the", "DT"); ("cat", "NN"); ("42", "CD"); ("n't", "RB");
            ("Dog", "NN")]).
  - reflexivity.
  - reflexivity.
  - discriminate.
  - discriminate.
  - by_eval.
  - reflexivity.
  - by_eval.
Defined.

Lemma X18_text_field_named_pos_tuple_witness :
  exists r3,
    through_lemma_pos Toy.decode_utf8 Toy.word_tokenize Toy.pos_tag
      Toy.lemmatize Toy.stopwords
      (Config "pos_tuple" true true true true "lemma_pos" true false None)
      {[ "pos_tuple" := VStr "the cat" ]} = Ok r3
    /\ r3 !! "pos_tuple" = Some (VList [])
    /\ r3 !! "pos_tag" = Some (VList []).
Proof.
  apply (X18_text_field_named_pos_tuple
           Toy.decode_utf8 Toy.word_tokenize Toy.pos_tag Toy.lemmatize
           Toy.stopwords
           (Config "pos_tuple" true true true true "lemma_pos" true false None)
           {[ "pos_tuple" := VStr "the cat" ]}
           "the cat" "the cat" [("the", "DT"); ("cat", "NN")]).
  - reflexivity.
  - reflexivity.
  - by_eval.
  - reflexivity.
  - by_eval.
Defined.

Lemma X19_no_stopword_without_base_word_witness :
  exists toks,
    before_shape Toy.decode_utf8 Toy.word_tokenize Toy.pos_tag Toy.lemmatize
      Toy.stem Toy.stopwords
      (Config "text" true true true false "lemma" true false None)
      {[ "text" := VStr "the cat" ]}
    = Ok (<["text" := VList (IStr <$> toks)]> {[ "text" := VStr "the cat" ]})
    /\ Forall (fun t => t ∉ Toy.stopwords) toks.
Proof.
  apply (X19_no_stopword_without_base_word
           Toy.decode_utf8 Toy.word_tokenize Toy.pos_tag Toy.lemmatize
           Toy.stem Toy.stopwords
           (Config "text" true true true false "lemma" true false None)
           {[ "text" := VStr "the cat" ]} "the cat").
  - reflexivity.
  - reflexivity.
  - by_eval.
Defined.
